(** * Response rendering and mode dispatch of the code-assistant UI

    A shallow embedding of the parts of [src/index.tsx] that interpret a
    Markdown response ([MarkdownResponse], [CodeBlock]) and that drive the
    mode state machine ([handleSubmit], [ModeButton]), with the properties
    the specification states about them.

    JavaScript strings are sequences of 16-bit code units.  The embedding
    covers the strings whose code units are below 256 (Latin-1): a string is a
    [list ascii].  The character classes of the regular expressions and of
    [trim] and [toLowerCase] are given for that range in full. *)

From Stdlib Require Import Ascii String DecimalString.
From Stdlib Require Import List Arith Lia Bool.
Import ListNotations.

(** ** Strings *)

Definition str := list ascii.

(** A string literal of the source. *)
Definition js (s : string) : str := list_ascii_of_string s.

Definition code_unit (c : ascii) : nat := nat_of_ascii c.

Definition ascii_eqb (a b : ascii) : bool := Ascii.eqb a b.

Fixpoint str_eqb (a b : str) : bool :=
  match a, b with
  | [], [] => true
  | x :: a', y :: b' => ascii_eqb x y && str_eqb a' b'
  | _, _ => false
  end.

(** [s.startsWith(p)] *)
Fixpoint startsWith (p s : str) : bool :=
  match p, s with
  | [], _ => true
  | _ :: _, [] => false
  | x :: p', y :: s' => ascii_eqb x y && startsWith p' s'
  end.

(** [s.endsWith(p)] *)
Definition endsWith (p s : str) : bool := startsWith (rev p) (rev s).

(** [[a-zA-Z]] *)
Definition is_letter (c : ascii) : bool :=
  let n := code_unit c in
  ((65 <=? n) && (n <=? 90)) || ((97 <=? n) && (n <=? 122)).

(** White space and line terminators, the characters [trim] removes: TAB, LF,
    VT, FF, CR, SPACE and NO-BREAK SPACE are the ones below 256. *)
Definition is_space (c : ascii) : bool :=
  let n := code_unit c in
  ((9 <=? n) && (n <=? 13)) || (n =? 32) || (n =? 160).

(** The characters [.] of a regular expression does not match: LF and CR are
    the line terminators below 256. *)
Definition is_line_terminator (c : ascii) : bool :=
  let n := code_unit c in (n =? 10) || (n =? 13).

Fixpoint takeWhile (f : ascii -> bool) (s : str) : str :=
  match s with
  | [] => []
  | c :: s' => if f c then c :: takeWhile f s' else []
  end.

Fixpoint dropWhile (f : ascii -> bool) (s : str) : str :=
  match s with
  | [] => []
  | c :: s' => if f c then dropWhile f s' else s
  end.

Definition trimStart (s : str) : str := dropWhile is_space s.
Definition trimEnd (s : str) : str := rev (dropWhile is_space (rev s)).

(** [s.trim()] *)
Definition trim (s : str) : str := trimEnd (trimStart s).

(** [s.substring(n)] for [0 <= n] *)
Definition substring (n : nat) (s : str) : str := skipn n s.

(** [s.slice(2, -2)]: from index 2 to index [length - 2], empty when the
    end is not after the start. *)
Definition slice_2_m2 (s : str) : str := firstn (length s - 2 - 2) (skipn 2 s).

(** [c.toLowerCase()] on one code unit below 256: A-Z, and the Latin-1
    capitals U+00C0..U+00DE except the multiplication sign U+00D7. *)
Definition lower_char (c : ascii) : ascii :=
  let n := code_unit c in
  if ((65 <=? n) && (n <=? 90))
     || ((192 <=? n) && (n <=? 222) && negb (n =? 215))
  then ascii_of_nat (n + 32) else c.

(** [s.toLowerCase()] *)
Definition toLowerCase (s : str) : str := map lower_char s.

(** [s.split('\n')] *)
Fixpoint split_lines_from (cur : str) (s : str) : list str :=
  match s with
  | [] => [cur]
  | c :: s' =>
      if ascii_eqb c "010"%char then cur :: split_lines_from [] s'
      else split_lines_from (cur ++ [c]) s'
  end.

Definition split_newline (s : str) : list str := split_lines_from [] s.

(** [Boolean(s)] for a string: the empty string is the falsy one. *)
Definition truthy (s : str) : bool :=
  match s with [] => false | _ :: _ => true end.

(** ** Regular expressions of the renderer *)

Definition fence : str := js "```".
Definition stars : str := js "**".

(** [[\s\S]*?```] at the start of [s]: the number of characters consumed,
    closing fence included; the lazy star stops at the first fence. *)
Fixpoint lazy_to_fence (s : str) : option nat :=
  if startsWith fence s then Some 3
  else match s with
       | [] => None
       | _ :: s' => option_map S (lazy_to_fence s')
       end.

(** [(```(?:[a-zA-Z]*\n)?[\s\S]*?```)] anchored at the start of [s]: the
    length of the match.  The optional group is tried first, with the greedy
    letter run; when the rest then finds no closing fence the matcher
    backtracks: a shorter letter run is followed by a letter, not by a
    newline, so the only alternative left is to skip the group. *)
Definition fence_match (s : str) : option nat :=
  if startsWith fence s then
    let r := skipn 3 s in
    let k := length (takeWhile is_letter r) in
    let without_group := option_map (fun n => 3 + n) (lazy_to_fence r) in
    match skipn k r with
    | c :: r2 =>
        if ascii_eqb c "010"%char then
          match lazy_to_fence r2 with
          | Some n => Some (3 + k + 1 + n)
          | None => without_group
          end
        else without_group
    | [] => without_group
    end
  else None.

(** A lazy run of [.] up to the next two stars, at the start of [s]: [.] does
    not cross a line terminator. *)
Fixpoint lazy_to_stars (s : str) : option nat :=
  if startsWith stars s then Some 2
  else match s with
       | [] => None
       | c :: s' =>
           if is_line_terminator c then None
           else option_map S (lazy_to_stars s')
       end.

(** The bold pattern of the renderer (two stars, a lazy run of [.], two
    stars, the whole being the capture group) anchored at the start of [s]. *)
Definition bold_match (s : str) : option nat :=
  if startsWith stars s
  then option_map (fun n => 2 + n) (lazy_to_stars (skipn 2 s))
  else None.

(** [s.split(re)] for a regular expression [re] that is one capture group
    and never matches the empty string, [re_match] being [re] anchored.  The
    loop of RegExp.prototype[Symbol.split]: [cur] is the text from the end of
    the last match [p] to the position [q] tried now, [s] the text from [q];
    a match at [q] pushes [cur] and the captured match and restarts after it,
    a failure moves [q] by one; the end pushes the tail.  Every iteration
    consumes a character, so [fuel] above the length of [s] is never used
    up. *)
Fixpoint split_loop (re_match : str -> option nat) (fuel : nat)
    (cur s : str) : list str :=
  match fuel with
  | 0 => [cur ++ s]
  | S fuel' =>
      match s with
      | [] => [cur]
      | c :: s' =>
          match re_match s with
          | Some (S n) =>
              cur :: firstn (S n) s
                  :: split_loop re_match fuel' [] (skipn (S n) s)
          | _ => split_loop re_match fuel' (cur ++ [c]) s'
          end
      end
  end.

Definition regex_split (re_match : str -> option nat) (s : str) : list str :=
  split_loop re_match (S (length s)) [] s.

(** [content.split(/(```(?:[a-zA-Z]*\n)?[\s\S]*?```)/g).filter(Boolean)] *)
Definition parts (content : str) : list str :=
  filter truthy (regex_split fence_match content).

(** ** The language catalog ([types.ts]) *)

Inductive Language : Type :=
  | JavaScript | TypeScript | Python | Java | Cpp | Go | Rust
  | HTML | CSS | SQL | Shell.

(** The string each member of the union type [Language] is. *)
Definition label (l : Language) : str :=
  match l with
  | JavaScript => js "JavaScript"
  | TypeScript => js "TypeScript"
  | Python => js "Python"
  | Java => js "Java"
  | Cpp => js "C++"
  | Go => js "Go"
  | Rust => js "Rust"
  | HTML => js "HTML"
  | CSS => js "CSS"
  | SQL => js "SQL"
  | Shell => js "Shell"
  end.

Definition LANGUAGES : list Language :=
  [JavaScript; TypeScript; Python; Java; Cpp; Go; Rust; HTML; CSS; SQL; Shell].

(** [normalizedLanguage] of [CodeBlock]:
    [LANGUAGES.find(l => l.toLowerCase() === lowerLang) || 'JavaScript']. *)
Definition normalizedLanguage (language : str) : Language :=
  let lowerLang := toLowerCase language in
  match find (fun l => str_eqb (toLowerCase (label l)) lowerLang) LANGUAGES with
  | Some found => found
  | None => JavaScript
  end.

(** ** The rendered tree of [MarkdownResponse] *)

(** A child of the [div] of a non-code part: [<strong>], [<ul>] whose
    children are [<li>] elements or [false] (which React renders as nothing),
    or [<span>]. *)
Inductive Inline : Type :=
  | Strong (text : str)
  | Ul (children : list (option str))
  | Span (text : str).

(** An element of the top-level list: the merge view of [CodeComparison],
    the read-only editor of [CodeBlock] (with the language tag shown in its
    header and the catalog language of its editor), or the [div] of a
    non-code part. *)
Inductive Element : Type :=
  | CodeComparison (originalCode newCode : str) (language : Language)
  | CodeBlock (language code : str)
  | TextDiv (children : list Inline).

(** [part.replace(/^```[a-zA-Z]*\n?/, '')] *)
Definition strip_opening (part : str) : str :=
  if startsWith fence part then
    match dropWhile is_letter (skipn 3 part) with
    | c :: r => if ascii_eqb c "010"%char then r else c :: r
    | [] => []
    end
  else part.

(** [s.replace(/```$/, '')] *)
Definition strip_closing (s : str) : str :=
  if endsWith fence s then firstn (length s - 3) s else s.

(** [part.replace(/^```[a-zA-Z]*\n?/, '').replace(/```$/, '').trim()] *)
Definition code_body (part : str) : str :=
  trim (strip_closing (strip_opening part)).

(** The language tag of a code part: group 1 of the match of the fence
    followed by a captured run of [[a-zA-Z]], or [''] without a match. *)
Definition code_lang (part : str) : str :=
  if startsWith fence part then takeWhile is_letter (skipn 3 part) else [].

Definition starts_marker (s : str) : bool :=
  startsWith (js "* ") s || startsWith (js "- ") s.

(** The child an [item] of a list chunk becomes: [<li>] or [false]. *)
Definition list_child (item : str) : option str :=
  if starts_marker (trim item) then Some (substring 2 (trim item)) else None.

(** The callback mapped over the pieces of a non-code part. *)
Definition render_text (text : str) : Inline :=
  if startsWith stars text && endsWith stars text then Strong (slice_2_m2 text)
  else if starts_marker (trim text)
       then Ul (map list_child (split_newline (trim text)))
       else Span text.

Definition render_prose (part : str) : Element :=
  TextDiv (map render_text (regex_split bold_match part)).

(** [part.startsWith('```')] *)
Definition isCodeBlock (part : str) : bool := startsWith fence part.

Arguments isCodeBlock : simpl never.

(** The callback of [parts.map], with the local flag [diffHasBeenRendered]
    threaded through the calls.  [originalCode] and [language] are optional
    props: [None] is [undefined]. *)
Fixpoint render_parts (originalCode : option str) (language : option Language)
    (diffHasBeenRendered : bool) (ps : list str) : list Element :=
  match ps with
  | [] => []
  | part :: rest =>
      match isCodeBlock part, originalCode, language, diffHasBeenRendered with
      | true, Some (c :: oc), Some lang, false =>
          CodeComparison (c :: oc) (code_body part) lang
            :: render_parts originalCode language true rest
      | true, _, _, _ =>
          CodeBlock (code_lang part) (code_body part)
            :: render_parts originalCode language diffHasBeenRendered rest
      | false, _, _, _ =>
          render_prose part
            :: render_parts originalCode language diffHasBeenRendered rest
      end
  end.

Definition MarkdownResponse (content : str) (originalCode : option str)
    (language : option Language) : list Element :=
  render_parts originalCode language false (parts content).

(** The props say an original snapshot is there: [originalCode && language]. *)
Definition snapshot_present (originalCode : option str)
    (language : option Language) : bool :=
  match originalCode, language with
  | Some (_ :: _), Some _ => true
  | _, _ => false
  end.

Definition is_diff (e : Element) : bool :=
  match e with CodeComparison _ _ _ => true | _ => false end.

Definition is_plain_code (e : Element) : bool :=
  match e with CodeBlock _ _ => true | _ => false end.

(** The items a rendered list shows: the [<li>] children. *)
Fixpoint shown_items (children : list (option str)) : list str :=
  match children with
  | [] => []
  | Some item :: r => item :: shown_items r
  | None :: r => shown_items r
  end.

(** All the text a rendered tree shows, in order. *)
Definition inline_texts (i : Inline) : list str :=
  match i with
  | Strong t => [t]
  | Ul children => shown_items children
  | Span t => [t]
  end.

Definition element_texts (e : Element) : list str :=
  match e with
  | CodeComparison _ newCode _ => [newCode]
  | CodeBlock _ code => [code]
  | TextDiv children => flat_map inline_texts children
  end.

(** ** The state of the application ([App], [CodeAssistant]) *)

Inductive AiMode : Type :=
  | ASSIST | GENERATE | DEBUG | REFACTOR | REVIEW
  | GENERATE_DOCS | GENERATE_TESTS | ANALYZE_REPO.

Inductive Theme : Type := light | dark.

(** The [useState] cells of [CodeAssistant]; [error] is [string | null]. *)
Record AssistantState : Type := {
  mode : AiMode;
  language : Language;
  code : str;
  userInput : str;
  response : str;
  isLoading : bool;
  error : option str;
  originalCodeForDiff : str
}.

(** The [useState] cells of [App], with the assistant it mounts. *)
Record AppState : Type := {
  isAuthenticated : bool;
  theme : Theme;
  assistant : AssistantState
}.

(** ** External collaborators *)

(** The calls [handleSubmit] makes outside the component: the functions of
    [services/geminiService.ts] and [fetch]. *)
Inductive Call : Type :=
  | analyzeCode (code problem : str) (language : Language)
  | generateCode (description : str) (language : Language)
  | debugAndExecuteCode (code : str) (language : Language)
  | refactorCode (code : str) (language : Language)
  | reviewCode (code : str) (language : Language)
  | generateDocs (code : str) (language : Language)
  | generateTests (code : str) (language : Language)
  | analyzeRepo (readmeContent : str)
  | fetch (url : str).

(** What an awaited promise gives: its value, or the message of the error it
    rejects with. *)
Inductive Reply : Type :=
  | Resolved (text : str)
  | Rejected (message : str).

(** What an awaited [fetch] gives: a rejection, or a response with its [ok]
    and [status] and the reading of its body ([json()] and its
    [download_url], or [text()]). *)
Inductive FetchReply : Type :=
  | FetchRejected (message : str)
  | FetchResponse (ok : bool) (status : nat) (body : Reply).

(** The outside world: its answers may depend on the calls made before. *)
Record World : Type := {
  service : list Call -> Call -> Reply;
  network : list Call -> str -> FetchReply
}.

(** ** The handler monad: state, call log, early [return] and [throw] *)

Inductive Completion (A : Type) : Type :=
  | Normal (a : A)
  | Return
  | Throw (message : str).

Arguments Normal {A} a.
Arguments Return {A}.
Arguments Throw {A} message.

Definition Handler (A : Type) : Type :=
  AssistantState * list Call -> Completion A * (AssistantState * list Call).

Definition ret {A : Type} (a : A) : Handler A := fun s => (Normal a, s).

Definition bind {A B : Type} (m : Handler A) (k : A -> Handler B) : Handler B :=
  fun s =>
    match m s with
    | (Normal a, s') => k a s'
    | (Return, s') => (Return, s')
    | (Throw e, s') => (Throw e, s')
    end.

Notation "x <- m ;; k" := (bind m (fun x => k))
  (at level 61, m at next level, right associativity).
Notation "m ;;; k" := (bind m (fun _ => k))
  (at level 61, right associativity).

Definition early_return {A : Type} : Handler A := fun s => (Return, s).
Definition throw {A : Type} (message : str) : Handler A :=
  fun s => (Throw message, s).

(** [try { body } catch (e) { handler(e.message) }] *)
Definition try_catch {A : Type} (body : Handler A) (handler : str -> Handler A)
    : Handler A :=
  fun s =>
    match body s with
    | (Throw e, s') => handler e s'
    | r => r
    end.

(** [try { body } finally { final }], for a [final] that completes
    normally. *)
Definition try_finally {A : Type} (body : Handler A) (final : Handler unit)
    : Handler A :=
  fun s =>
    match body s with
    | (c, s') => (c, snd (final s'))
    end.

Definition update (f : AssistantState -> AssistantState) : Handler unit :=
  fun s => (Normal tt, (f (fst s), snd s)).

Definition setMode (v : AiMode) (st : AssistantState) : AssistantState :=
  {| mode := v; language := language st; code := code st;
     userInput := userInput st; response := response st;
     isLoading := isLoading st; error := error st;
     originalCodeForDiff := originalCodeForDiff st |}.

Definition setCode (v : str) (st : AssistantState) : AssistantState :=
  {| mode := mode st; language := language st; code := v;
     userInput := userInput st; response := response st;
     isLoading := isLoading st; error := error st;
     originalCodeForDiff := originalCodeForDiff st |}.

Definition setUserInput (v : str) (st : AssistantState) : AssistantState :=
  {| mode := mode st; language := language st; code := code st;
     userInput := v; response := response st;
     isLoading := isLoading st; error := error st;
     originalCodeForDiff := originalCodeForDiff st |}.

Definition setResponse (v : str) (st : AssistantState) : AssistantState :=
  {| mode := mode st; language := language st; code := code st;
     userInput := userInput st; response := v;
     isLoading := isLoading st; error := error st;
     originalCodeForDiff := originalCodeForDiff st |}.

Definition setIsLoading (v : bool) (st : AssistantState) : AssistantState :=
  {| mode := mode st; language := language st; code := code st;
     userInput := userInput st; response := response st;
     isLoading := v; error := error st;
     originalCodeForDiff := originalCodeForDiff st |}.

Definition setError (v : option str) (st : AssistantState) : AssistantState :=
  {| mode := mode st; language := language st; code := code st;
     userInput := userInput st; response := response st;
     isLoading := isLoading st; error := v;
     originalCodeForDiff := originalCodeForDiff st |}.

Definition setOriginalCodeForDiff (v : str) (st : AssistantState)
    : AssistantState :=
  {| mode := mode st; language := language st; code := code st;
     userInput := userInput st; response := response st;
     isLoading := isLoading st; error := error st;
     originalCodeForDiff := v |}.

(** ** The repository URL pattern *)

Definition not_slash (c : ascii) : bool := negb (ascii_eqb c "/"%char).

(** [/github\.com\/([^\/]+)\/([^\/]+)/] anchored at the start of [s]: the two
    groups.  Each group is greedy; the first must stop at a slash and giving
    characters back cannot produce one, so there is no other way to match. *)
Definition github_match (s : str) : option (str * str) :=
  if startsWith (js "github.com/") s then
    let r := skipn 11 s in
    match takeWhile not_slash r, dropWhile not_slash r with
    | (_ :: _) as owner, _ :: r2 =>
        match takeWhile not_slash r2 with
        | (_ :: _) as repo => Some (owner, repo)
        | [] => None
        end
    | _, _ => None
    end
  else None.

(** [userInput.match(/github\.com\/([^\/]+)\/([^\/]+)/)]: the leftmost match. *)
Fixpoint github_search (s : str) : option (str * str) :=
  match github_match s with
  | Some m => Some m
  | None => match s with
            | [] => None
            | _ :: s' => github_search s'
            end
  end.

(** [repo.replace(/\.git$/, '')] *)
Definition strip_dot_git (repo : str) : str :=
  if endsWith (js ".git") repo then firstn (length repo - 4) repo else repo.

(** The text of a number in a template literal. *)
Definition decimal (n : nat) : str :=
  js (DecimalString.NilEmpty.string_of_uint (Nat.to_uint n)).

(** ** [handleSubmit] *)

Section Dispatch.

Variable world : World.

(** [await f(...)] for a function of the service: the call is logged, its
    value returned or its rejection thrown. *)
Definition await_call (c : Call) : Handler str :=
  fun s =>
    match service world (snd s) c with
    | Resolved text => (Normal text, (fst s, snd s ++ [c]))
    | Rejected message => (Throw message, (fst s, snd s ++ [c]))
    end.

(** [await fetch(url)] *)
Definition await_fetch (url : str) : Handler (bool * nat * Reply) :=
  fun s =>
    match network world (snd s) url with
    | FetchResponse ok status body =>
        (Normal (ok, status, body), (fst s, snd s ++ [fetch url]))
    | FetchRejected message => (Throw message, (fst s, snd s ++ [fetch url]))
    end.

(** [await response.json()] (and its [download_url]), [await
    response.text()] *)
Definition await_body (body : Reply) : Handler str :=
  match body with
  | Resolved text => ret text
  | Rejected message => throw message
  end.

(** [{ setError(message); setIsLoading(false); return; }] *)
Definition abort {A : Type} (message : str) : Handler A :=
  update (setError (Some message)) ;;;
  update (setIsLoading false) ;;;
  early_return.

Definition readme_url (owner repo : str) : str :=
  js "https://api.github.com/repos/" ++ owner ++ js "/"
    ++ strip_dot_git repo ++ js "/readme".

Definition metadata_failure (status : nat) : str :=
  js "Failed to fetch repo metadata (status: " ++ decimal status
    ++ js "). Check URL or API rate limits.".

(** The [switch (mode)] of [handleSubmit]: the values it leaves in the
    locals [originalCode] and [result]. *)
Definition dispatch (mode : AiMode) (code userInput : str)
    (language : Language) : Handler (str * str) :=
  match mode with
  | ASSIST =>
      if negb (truthy code) || negb (truthy userInput)
      then abort (js "Please provide both code and a problem description.")
      else result <- await_call (analyzeCode code userInput language) ;;
           ret (code, result)
  | GENERATE =>
      if negb (truthy userInput)
      then abort (js "Please provide a description for the code to generate.")
      else result <- await_call (generateCode userInput language) ;;
           ret ([], result)
  | DEBUG =>
      if negb (truthy code)
      then abort (js "Please provide code to debug.")
      else result <- await_call (debugAndExecuteCode code language) ;;
           ret (code, result)
  | REFACTOR =>
      if negb (truthy code)
      then abort (js "Please provide code to refactor.")
      else result <- await_call (refactorCode code language) ;;
           ret (code, result)
  | REVIEW =>
      if negb (truthy code)
      then abort (js "Please provide code to review.")
      else result <- await_call (reviewCode code language) ;;
           ret ([], result)
  | GENERATE_DOCS =>
      if negb (truthy code)
      then abort (js "Please provide code to generate documentation for.")
      else result <- await_call (generateDocs code language) ;;
           ret ([], result)
  | GENERATE_TESTS =>
      if negb (truthy code)
      then abort (js "Please provide code to generate tests for.")
      else result <- await_call (generateTests code language) ;;
           ret ([], result)
  | ANALYZE_REPO =>
      if negb (truthy userInput)
      then abort (js "Please provide a public GitHub repository URL.")
      else
        match github_search userInput with
        | None =>
            abort (js "Invalid GitHub repository URL. Use format: https://github.com/owner/repo")
        | Some (owner, repo) =>
            try_catch
              (readmeMetaResponse <- await_fetch (readme_url owner repo) ;;
               let '(ok, status, body) := readmeMetaResponse in
               if negb ok then throw (metadata_failure status)
               else
                 download_url <- await_body body ;;
                 readmeContentResponse <- await_fetch download_url ;;
                 let '(ok', _, body') := readmeContentResponse in
                 if negb ok'
                 then throw (js "Failed to download README content.")
                 else
                   readmeContent <- await_body body' ;;
                   result <- await_call (analyzeRepo readmeContent) ;;
                   ret ([], result))
              (fun message => abort message)
        end
  end.

(** The body of [handleSubmit], for the values of [mode], [code],
    [userInput] and [language] its closure holds. *)
Definition handleSubmit_body (mode : AiMode) (code userInput : str)
    (language : Language) : Handler unit :=
  update (setIsLoading true) ;;;
  update (setResponse []) ;;;
  update (setError None) ;;;
  update (setOriginalCodeForDiff []) ;;;
  try_finally
    (try_catch
       (locals <- dispatch mode code userInput language ;;
        update (setOriginalCodeForDiff (fst locals)) ;;;
        update (setResponse (snd locals)))
       (fun message =>
          update (setError (Some (if truthy message then message
                                  else js "An unexpected error occurred."))) ;;;
          update (setResponse [])))
    (update (setIsLoading false)).

(** One click on the submit button in state [st]: the callback is the one
    of the current render ([useCallback] on [mode], [code], [userInput],
    [language]), the call log starts empty. *)
Definition handleSubmit (st : AssistantState)
    : Completion unit * (AssistantState * list Call) :=
  handleSubmit_body (mode st) (code st) (userInput st) (language st) (st, []).

(** The state the handler leaves, the calls it made, how it ended. *)
Definition state_after (st : AssistantState) : AssistantState :=
  fst (snd (handleSubmit st)).
Definition calls_of (st : AssistantState) : list Call :=
  snd (snd (handleSubmit st)).
Definition completion_of (st : AssistantState) : Completion unit :=
  fst (handleSubmit st).

End Dispatch.

(** A dispatch is successful when the [switch] completed and the two final
    setters ran: the handler reached its end with no error set. *)
Definition succeeded (w : World) (st : AssistantState) : Prop :=
  completion_of w st = Normal tt /\ error (state_after w st) = None.

(** ** [ModeButton] *)

(** [onClick] of the button of mode [value]. *)
Definition ModeButton_onClick (value : AiMode) (st : AssistantState)
    : AssistantState :=
  setOriginalCodeForDiff []
    (setError None
       (setUserInput [] (setCode [] (setResponse [] (setMode value st))))).

(** The click seen from [App]: the handler only calls setters of
    [CodeAssistant]. *)
Definition click_mode (value : AiMode) (app : AppState) : AppState :=
  {| isAuthenticated := isAuthenticated app;
     theme := theme app;
     assistant := ModeButton_onClick value (assistant app) |}.

(** What [CodeAssistant] shows in the response pane when not loading and the
    response is not empty. *)
Definition response_view (st : AssistantState) : list Element :=
  MarkdownResponse (response st) (Some (originalCodeForDiff st))
    (Some (language st)).

(** ** Notions of the specification *)

(** The required inputs of the mode table are not all there: code and problem
    description for ASSIST, a description for GENERATE, code for DEBUG,
    REFACTOR, REVIEW, GENERATE_DOCS and GENERATE_TESTS, a URL in which the
    repository pattern is found for ANALYZE_REPO. *)
Definition required_input_missing (st : AssistantState) : bool :=
  match mode st with
  | ASSIST => negb (truthy (code st)) || negb (truthy (userInput st))
  | GENERATE => negb (truthy (userInput st))
  | DEBUG | REFACTOR | REVIEW | GENERATE_DOCS | GENERATE_TESTS =>
      negb (truthy (code st))
  | ANALYZE_REPO =>
      match github_search (userInput st) with None => true | Some _ => false end
  end.

(** The column [retainsOriginalCode] of the mode table. *)
Definition retainsOriginalCode (m : AiMode) : bool :=
  match m with
  | ASSIST | DEBUG | REFACTOR => true
  | _ => false
  end.

(** The number of elements of a rendering that are diffs. *)
Definition diff_count (out : list Element) : nat := length (filter is_diff out).

(** The number of parts that are code segments. *)
Definition code_count (ps : list str) : nat := length (filter isCodeBlock ps).

(** The segments of the specification, read off the rendered tree. *)
Inductive Segment : Type :=
  | Prose (text : str)
  | BulletList (items : list str)
  | Code (declaredLanguage body : str)
  | Diff (original updated : str).

Definition inline_segment (i : Inline) : Segment :=
  match i with
  | Strong t => Prose t
  | Ul children => BulletList (shown_items children)
  | Span t => Prose t
  end.

Definition element_segments (e : Element) : list Segment :=
  match e with
  | CodeComparison o n _ => [Diff o n]
  | CodeBlock l c => [Code l c]
  | TextDiv children => map inline_segment children
  end.

Definition segments (content : str) (originalCode : option str)
    (language : option Language) : list Segment :=
  flat_map element_segments (MarkdownResponse content originalCode language).

(** A code part rendered outside the diff branch, a non-code part. *)
Definition render_plain (part : str) : Element :=
  if isCodeBlock part then CodeBlock (code_lang part) (code_body part)
  else render_prose part.

(** Part [i] is the first code segment of [ps]. *)
Definition first_code_at (ps : list str) (i : nat) : Prop :=
  exists p, nth_error ps i = Some p /\ isCodeBlock p = true
            /\ code_count (firstn i ps) = 0.

(** [strip_opening] seen from behind the opening fence: what the opening
    pattern leaves of the text [inner] that follows the fence (see
    [strip_opening_fence]). *)
Definition after_tag (inner : str) : str :=
  match dropWhile is_letter inner with
  | c :: r => if ascii_eqb c "010"%char then r else c :: r
  | [] => []
  end.

(** The items of a list chunk as the specification words them: the lines
    that begin with a marker once trimmed, without the two characters of the
    marker. *)
Definition marker_items (text : str) : list str :=
  map (fun line => substring 2 (trim line))
      (filter (fun line => starts_marker (trim line)) (split_newline text)).

(** The messages a failed validation shows, by mode. *)
Definition validation_messages (m : AiMode) : list str :=
  match m with
  | ASSIST => [js "Please provide both code and a problem description."]
  | GENERATE => [js "Please provide a description for the code to generate."]
  | DEBUG => [js "Please provide code to debug."]
  | REFACTOR => [js "Please provide code to refactor."]
  | REVIEW => [js "Please provide code to review."]
  | GENERATE_DOCS => [js "Please provide code to generate documentation for."]
  | GENERATE_TESTS => [js "Please provide code to generate tests for."]
  | ANALYZE_REPO =>
      [js "Please provide a public GitHub repository URL.";
       js "Invalid GitHub repository URL. Use format: https://github.com/owner/repo"]
  end.

(** The three cells every dispatch resets first. *)
Definition cleared (st : AssistantState) : AssistantState :=
  setOriginalCodeForDiff [] (setError None (setResponse [] st)).

(** ** Sample inputs *)

(** A world whose service answers every call with one fenced block and whose
    network answers every request with status 200. *)
Definition sample_world : World :=
  {| service := fun _ _ => Resolved (js "```python
def f():
    return None
```");
     network := fun _ _ => FetchResponse true 200 (Resolved (js "README")) |}.

Definition sample_state (m : AiMode) (c u : str) : AssistantState :=
  {| mode := m; language := Python; code := c; userInput := u;
     response := js "an earlier answer"; isLoading := false;
     error := Some (js "an earlier error");
     originalCodeForDiff := js "earlier = code" |}.

Definition scenario_list : str := js "* item one
* item two

more text".

Definition scenario_unterminated : str := js "```js
console.log(1)".

Definition late_unterminated : str := js "see:
```js
console.log(1)".

Definition late_list : str := js "intro
* a
* b".

(** * Further parts of the source *)

(** ** Notions for the renderer *)

Definition not_backtick (c : ascii) : bool := negb (ascii_eqb c "`"%char).

(** A text made of closed fenced blocks only, each after text without
    backticks (possibly none): the shape of a response up to a point where
    the segmentation starts afresh. *)
Inductive closed_blocks : str -> Prop :=
| closed_nil : closed_blocks []
| closed_block (pre inner post : str) :
    forallb not_backtick pre = true ->
    lazy_to_fence (inner ++ fence) = Some (length inner + 3) ->
    closed_blocks post ->
    closed_blocks (pre ++ fence ++ inner ++ fence ++ post).

Definition not_star (c : ascii) : bool := negb (ascii_eqb c "*"%char).

Definition not_line_terminator (c : ascii) : bool := negb (is_line_terminator c).

(** The pieces a split with one capture group puts at the odd indices: the
    captured matches. *)
Fixpoint captured (pieces : list str) : list str :=
  match pieces with
  | _ :: m :: rest => m :: captured rest
  | _ => []
  end.

(** ** The editor's language support ([CodeEditor], [CodeComparison]) *)

(** The CodeMirror language extensions the two components choose from. *)
Inductive LanguageSupport : Type :=
  | javascript_jsx | javascript_typescript | javascript_plain
  | python | java | cpp | html | css | sql.

(** [getLanguageSupport] of [CodeEditor]. *)
Definition getLanguageSupport (lang : Language) : LanguageSupport :=
  match lang with
  | JavaScript => javascript_jsx
  | TypeScript => javascript_typescript
  | Python => python
  | Java => java
  | Cpp => cpp
  | HTML => html
  | CSS => css
  | SQL => sql
  | Go | Rust | Shell => javascript_plain
  end.

(** The support of the read-only editor of a [CodeBlock] whose header shows
    the tag [language]. *)
Definition code_block_support (language : str) : LanguageSupport :=
  getLanguageSupport (normalizedLanguage language).

(** ** Notions for the dispatch *)

(** The service call of a mode other than ANALYZE_REPO, with the inputs of
    the state. *)
Definition mode_call (st : AssistantState) : Call :=
  match mode st with
  | ASSIST => analyzeCode (code st) (userInput st) (language st)
  | GENERATE => generateCode (userInput st) (language st)
  | DEBUG => debugAndExecuteCode (code st) (language st)
  | REFACTOR => refactorCode (code st) (language st)
  | REVIEW => reviewCode (code st) (language st)
  | GENERATE_DOCS => generateDocs (code st) (language st)
  | GENERATE_TESTS => generateTests (code st) (language st)
  | ANALYZE_REPO => analyzeRepo []
  end.

(** The input cells [renderInputFields] binds to a widget in each mode. *)
Inductive InputField : Type := CodeField | UserInputField.

Definition renderInputFields (m : AiMode) : list InputField :=
  match m with
  | ASSIST => [CodeField; UserInputField]
  | GENERATE => [UserInputField]
  | DEBUG | REFACTOR | REVIEW | GENERATE_DOCS | GENERATE_TESTS => [CodeField]
  | ANALYZE_REPO => [UserInputField]
  end.

Definition shows (f : InputField) (m : AiMode) : bool :=
  existsb (fun g => match f, g with
                    | CodeField, CodeField => true
                    | UserInputField, UserInputField => true
                    | _, _ => false
                    end) (renderInputFields m).

(** A world whose network answers every request with status 404; the
    service resolves with the text [generateContent] gives for a failure. *)
Definition offline_world : World :=
  {| service := fun _ _ => Resolved (js "Error: Failed to fetch");
     network := fun _ _ => FetchResponse false 404 (Resolved []) |}.

(** The state a guard or the inner [catch] of the [switch] leaves before it
    returns: [setError(message); setIsLoading(false)]. *)
Definition abort_state (message : str) (s : AssistantState) : AssistantState :=
  setIsLoading false (setError (Some message) s).

(** The state the first four setters of [handleSubmit] leave. *)
Definition started (st : AssistantState) : AssistantState :=
  setOriginalCodeForDiff []
    (setError None (setResponse [] (setIsLoading true st))).

(** The message the outer [catch] shows for a thrown [message]. *)
Definition shown_message (message : str) : str :=
  if truthy message then message else js "An unexpected error occurred.".

Definition not_g (c : ascii) : bool := negb (ascii_eqb c "g"%char).

(** The text is empty or begins with a slash. *)
Definition ends_segment (post : str) : bool :=
  match post with
  | [] => true
  | c :: _ => ascii_eqb c "/"%char
  end.

(** The text [t] is a piece of the text [s]: some run of consecutive
    characters of [s]. *)
Definition occurs_in (t s : str) : Prop := exists a b, s = a ++ t ++ b.

(** ** Regular expressions that are tested, not searched *)

(** A pattern without groups to read back, anchored at both ends: [test]
    asks whether the whole string is a word of the pattern. *)
Inductive regex : Type :=
  | Never
  | Empty_word
  | Class (f : ascii -> bool)
  | Seq (r1 r2 : regex)
  | Or (r1 r2 : regex)
  | Many (r : regex).

(** [c] as a pattern. *)
Definition lit (c : ascii) : regex := Class (ascii_eqb c).
(** [r+] *)
Definition some_of (r : regex) : regex := Seq r (Many r).
(** [r{1,3}] *)
Definition one_to_three (r : regex) : regex :=
  Seq r (Or Empty_word (Seq r (Or Empty_word r))).
(** [r{2,}] *)
Definition two_or_more (r : regex) : regex := Seq r (Seq r (Many r)).

(** The words of a pattern. *)
Inductive lang : regex -> str -> Prop :=
  | lang_empty : lang Empty_word []
  | lang_class (f : ascii -> bool) (c : ascii) :
      f c = true -> lang (Class f) [c]
  | lang_seq (r1 r2 : regex) (s1 s2 : str) :
      lang r1 s1 -> lang r2 s2 -> lang (Seq r1 r2) (s1 ++ s2)
  | lang_or_l (r1 r2 : regex) (s : str) : lang r1 s -> lang (Or r1 r2) s
  | lang_or_r (r1 r2 : regex) (s : str) : lang r2 s -> lang (Or r1 r2) s
  | lang_many_nil (r : regex) : lang (Many r) []
  | lang_many_app (r : regex) (s1 s2 : str) :
      lang r s1 -> lang (Many r) s2 -> lang (Many r) (s1 ++ s2).

Fixpoint nullable (r : regex) : bool :=
  match r with
  | Never => false
  | Empty_word => true
  | Class _ => false
  | Seq r1 r2 => nullable r1 && nullable r2
  | Or r1 r2 => nullable r1 || nullable r2
  | Many _ => true
  end.

(** The pattern of what may follow a first character [c]. *)
Fixpoint derive (c : ascii) (r : regex) : regex :=
  match r with
  | Never => Never
  | Empty_word => Never
  | Class f => if f c then Empty_word else Never
  | Seq r1 r2 =>
      if nullable r1 then Or (Seq (derive c r1) r2) (derive c r2)
      else Seq (derive c r1) r2
  | Or r1 r2 => Or (derive c r1) (derive c r2)
  | Many r1 => Seq (derive c r1) (Many r1)
  end.

(** [re.test(s)] for the pattern [^r$]. *)
Fixpoint test (r : regex) (s : str) : bool :=
  match s with
  | [] => nullable r
  | c :: s' => test (derive c r) s'
  end.

(** A lower bound of the length of the words of a pattern. *)
Fixpoint min_length (r : regex) : nat :=
  match r with
  | Never => 0
  | Empty_word => 0
  | Class _ => 1
  | Seq r1 r2 => min_length r1 + min_length r2
  | Or r1 r2 => Nat.min (min_length r1) (min_length r2)
  | Many _ => 0
  end.

(** Every character a class of the pattern admits satisfies [P]. *)
Fixpoint classes_within (P : ascii -> bool) (r : regex) : Prop :=
  match r with
  | Never => True
  | Empty_word => True
  | Class f => forall c, f c = true -> P c = true
  | Seq r1 r2 => classes_within P r1 /\ classes_within P r2
  | Or r1 r2 => classes_within P r1 /\ classes_within P r2
  | Many r1 => classes_within P r1
  end.

(** ** The sign-in form ([Auth]) *)

Module Auth.

(** The characters of an unquoted local part: the negated class of the
    pattern leaves out the angle brackets, the round and square brackets,
    the backslash, dot, comma, semicolon, colon, white space, the at sign
    and the double quote. *)
Definition atom_char (c : ascii) : bool :=
  negb (existsb (ascii_eqb c)
          ["<"; ">"; "("; ")"; "["; "]"; "\"; "."; ","; ";"; ":"; "@";
           "034"]%char)
  && negb (is_space c).

(** [.]: any character but a line terminator. *)
Definition any_char (c : ascii) : bool := negb (is_line_terminator c).

(** [[0-9]] *)
Definition digit (c : ascii) : bool :=
  (48 <=? code_unit c) && (code_unit c <=? 57).

(** [[a-zA-Z\-0-9]] *)
Definition host_char (c : ascii) : bool :=
  is_letter c || ascii_eqb c "-"%char || digit c.

(** The local part: atoms joined by dots, or a quoted string. *)
Definition local_part : regex :=
  Or (Seq (some_of (Class atom_char))
          (Many (Seq (lit ".") (some_of (Class atom_char)))))
     (Seq (lit "034") (Seq (some_of (Class any_char)) (lit "034"))).

(** The domain: an address in brackets, or labels with dots and a last
    label of two letters or more. *)
Definition domain_part : regex :=
  Or (Seq (lit "[")
        (Seq (one_to_three (Class digit))
           (Seq (lit ".")
              (Seq (one_to_three (Class digit))
                 (Seq (lit ".")
                    (Seq (one_to_three (Class digit))
                       (Seq (lit ".")
                          (Seq (one_to_three (Class digit)) (lit "]")))))))))
     (Seq (some_of (Seq (some_of (Class host_char)) (lit ".")))
          (two_or_more (Class is_letter))).

(** The pattern [re] of [validateEmail], between its [^] and [$]. *)
Definition re : regex := Seq local_part (Seq (lit "@") domain_part).

(** [re.test(String(email).toLowerCase())] *)
Definition validateEmail (email : str) : bool := test re (toLowerCase email).

(** The [useState] cells of [Auth]. *)
Record State : Type := {
  isLoginView : bool;
  email : str;
  password : str;
  confirmPassword : str;
  error : option str
}.

Definition setError (v : option str) (st : State) : State :=
  {| isLoginView := isLoginView st; email := email st;
     password := password st; confirmPassword := confirmPassword st;
     error := v |}.

(** The props [onLogin] and [onSignup]. *)
Inductive Callback : Type := onLogin | onSignup.

(** [handleSubmit] of the form: the state it leaves and the callback it
    calls, if any. *)
Definition handleSubmit (st : State) : State * option Callback :=
  let st0 := setError None st in
  if negb (validateEmail (email st))
  then (setError (Some (js "Please enter a valid email address.")) st0, None)
  else if length (password st) <? 6
  then (setError
          (Some (js "Password must be at least 6 characters long.")) st0,
        None)
  else if isLoginView st then (st0, Some onLogin)
  else if negb (str_eqb (password st) (confirmPassword st))
  then (setError (Some (js "Passwords do not match.")) st0, None)
  else (st0, Some onSignup).

(** [toggleView] *)
Definition toggleView (st : State) : State :=
  {| isLoginView := negb (isLoginView st); email := []; password := [];
     confirmPassword := []; error := None |}.

End Auth.

(** [handleLogin], [handleSignup] of [App]: both set [isAuthenticated]. *)
Definition App_onAuth (cb : option Auth.Callback) (app : AppState) : AppState :=
  match cb with
  | Some _ => {| isAuthenticated := true; theme := theme app;
                 assistant := assistant app |}
  | None => app
  end.

Definition not_at (c : ascii) : bool := negb (ascii_eqb c "@"%char).


(** * Properties *)

(** ** Strings *)

Lemma ascii_eqb_refl (c : ascii) : ascii_eqb c c = true.
Proof. apply Ascii.eqb_refl. Qed.

Lemma ascii_eqb_true (a b : ascii) : ascii_eqb a b = true -> a = b.
Proof. apply Ascii.eqb_eq. Qed.

Lemma str_eqb_true (a b : str) : str_eqb a b = true <-> a = b.
Proof.
  revert b; induction a as [|x a IH]; intros [|y b]; simpl; split;
    try discriminate; try reflexivity.
  - intros H. apply andb_prop in H as [Hx Hr].
    apply ascii_eqb_true in Hx. apply IH in Hr. congruence.
  - intros H. inversion H; subst. rewrite ascii_eqb_refl. simpl.
    apply IH. reflexivity.
Qed.

Lemma startsWith_app (p s : str) : startsWith p (p ++ s) = true.
Proof.
  induction p as [|x p IH]; simpl; [reflexivity|].
  rewrite ascii_eqb_refl. exact IH.
Qed.

Lemma startsWith_true (p s : str) :
  startsWith p s = true -> s = p ++ skipn (length p) s.
Proof.
  revert s; induction p as [|x p IH]; intros s H; simpl in *; [reflexivity|].
  destruct s as [|y s]; [discriminate|].
  apply andb_prop in H as [Hx Hr]. apply ascii_eqb_true in Hx. subst y.
  simpl. f_equal. apply IH. exact Hr.
Qed.

Lemma endsWith_app (p s : str) : endsWith p (s ++ p) = true.
Proof. unfold endsWith. rewrite rev_app_distr. apply startsWith_app. Qed.

Lemma endsWith_true (p s : str) :
  endsWith p s = true -> s = firstn (length s - length p) s ++ p.
Proof.
  unfold endsWith. intros H. apply startsWith_true in H.
  assert (E : exists t, s = t ++ p).
  { exists (rev (skipn (length (rev p)) (rev s))).
    rewrite <- (rev_involutive s) at 1. rewrite H at 1.
    rewrite rev_app_distr, rev_involutive. reflexivity. }
  destruct E as [t E]. subst s.
  rewrite length_app, Nat.add_sub, firstn_app, Nat.sub_diag, firstn_all.
  simpl. rewrite app_nil_r. reflexivity.
Qed.

Lemma takeWhile_dropWhile (f : ascii -> bool) (s : str) :
  takeWhile f s ++ dropWhile f s = s.
Proof.
  induction s as [|c s IH]; simpl; [reflexivity|].
  destruct (f c); simpl; [rewrite IH|]; reflexivity.
Qed.

Lemma dropWhile_head (f : ascii -> bool) (s : str) (c : ascii) (r : str) :
  dropWhile f s = c :: r -> f c = false.
Proof.
  induction s as [|x s IH]; simpl; [discriminate|].
  destruct (f x) eqn:E; [exact IH|]. intros H. inversion H; subst. exact E.
Qed.

Lemma dropWhile_app_stop (f : ascii -> bool) (s t : str) (c : ascii) :
  f c = false -> dropWhile f (s ++ c :: t) = dropWhile f s ++ c :: t.
Proof.
  intros Hc. induction s as [|x s IH]; simpl.
  - rewrite Hc. reflexivity.
  - destruct (f x); [exact IH | reflexivity].
Qed.

Lemma takeWhile_app_stop (f : ascii -> bool) (s t : str) (c : ascii) :
  f c = false -> takeWhile f (s ++ c :: t) = takeWhile f s.
Proof.
  intros Hc. induction s as [|x s IH]; simpl.
  - rewrite Hc. reflexivity.
  - destruct (f x); [rewrite IH|]; reflexivity.
Qed.



(** ** The split loop *)

Lemma split_loop_concat (re : str -> option nat) (fuel : nat) (cur s : str) :
  concat (split_loop re fuel cur s) = cur ++ s.
Proof.
  revert cur s; induction fuel as [|fuel IH]; intros cur s; simpl.
  - apply app_nil_r.
  - destruct s as [|c s']; [simpl; reflexivity|].
    destruct (re (c :: s')) as [[|n]|].
    + rewrite IH, <- app_assoc. reflexivity.
    + simpl. rewrite IH. simpl. rewrite firstn_skipn. reflexivity.
    + rewrite IH, <- app_assoc. reflexivity.
Qed.

(** The fuel [regex_split] gives is never used up: more fuel changes
    nothing. *)
Lemma split_loop_fuel (re : str -> option nat) (f1 f2 : nat) (cur s : str) :
  length s < f1 -> length s < f2 ->
  split_loop re f1 cur s = split_loop re f2 cur s.
Proof.
  revert f2 cur s; induction f1 as [|f1 IH]; intros f2 cur s H1 H2; [lia|].
  destruct f2 as [|f2]; [lia|]. simpl.
  destruct s as [|c s']; [reflexivity|]. simpl in H1, H2.
  destruct (re (c :: s')) as [[|n]|].
  - apply IH; lia.
  - do 2 f_equal. apply IH; rewrite length_skipn; simpl; lia.
  - apply IH; lia.
Qed.

(** Where the pattern matches nowhere the split is the text itself. *)
Lemma split_loop_no_match (re : str -> option nat) (fuel : nat) (cur s : str) :
  (forall k, re (skipn k s) = None) ->
  split_loop re fuel cur s = [cur ++ s].
Proof.
  revert cur s; induction fuel as [|fuel IH]; intros cur s H; simpl;
    [reflexivity|].
  destruct s as [|c s']; [rewrite app_nil_r; reflexivity|].
  pose proof (H 0) as H0. simpl in H0. rewrite H0. rewrite IH.
  - rewrite <- app_assoc. reflexivity.
  - intros k. exact (H (S k)).
Qed.

Lemma concat_filter_truthy (l : list str) :
  concat (filter truthy l) = concat l.
Proof.
  induction l as [|a l IH]; simpl; [reflexivity|].
  destruct a; simpl; [exact IH | rewrite IH; reflexivity].
Qed.

Lemma parts_concat (content : str) : concat (parts content) = content.
Proof.
  unfold parts, regex_split.
  rewrite concat_filter_truthy, split_loop_concat. reflexivity.
Qed.

Lemma parts_nonempty (content : str) (p : str) :
  In p (parts content) -> p <> [].
Proof.
  unfold parts. intros H. apply filter_In in H as [_ H].
  destruct p; [discriminate | discriminate].
Qed.

(** C2: the top-level segmentation is lossless.  The parts of a response, in
    order, each the literal text of its segment with the fences of a code
    segment still attached, concatenate to the response itself, whatever the
    response is; no part is empty. *)
Theorem C2_segmentation_round_trip (content : str) :
  concat (parts content) = content /\ Forall (fun p => p <> []) (parts content).
Proof.
  split; [apply parts_concat|].
  apply Forall_forall. intros p. apply parts_nonempty.
Qed.

(** ** Diff pairing *)

Lemma is_diff_render_plain (p : str) : is_diff (render_plain p) = false.
Proof. unfold render_plain, render_prose. destruct (isCodeBlock p); reflexivity. Qed.

Lemma render_parts_length (oc : option str) (lang : option Language)
    (b : bool) (ps : list str) :
  length (render_parts oc lang b ps) = length ps.
Proof.
  revert b; induction ps as [|p ps IH]; intros b; simpl; [reflexivity|].
  destruct (isCodeBlock p), oc as [[|c o]|], lang, b; simpl;
    rewrite IH; reflexivity.
Qed.

(** Once the flag is set every part is rendered plainly. *)
Lemma render_parts_rendered (oc : option str) (lang : option Language)
    (ps : list str) :
  render_parts oc lang true ps = map render_plain ps.
Proof.
  induction ps as [|p ps IH]; simpl; [reflexivity|].
  unfold render_plain.
  destruct (isCodeBlock p), oc as [[|c o]|], lang; simpl;
    rewrite IH; reflexivity.
Qed.

(** Without a snapshot every part is rendered plainly. *)
Lemma render_parts_absent (oc : option str) (lang : option Language)
    (b : bool) (ps : list str) :
  snapshot_present oc lang = false ->
  render_parts oc lang b ps = map render_plain ps.
Proof.
  intros H. revert b; induction ps as [|p ps IH]; intros b; simpl;
    [reflexivity|].
  unfold render_plain.
  destruct (isCodeBlock p), oc as [[|c o]|], lang, b; simpl in *;
    try discriminate; rewrite IH; reflexivity.
Qed.

(** With a snapshot and the flag still down, the first code part met is the
    diff and sets the flag. *)
Lemma render_parts_present (oc : option str) (lang : option Language)
    (p : str) (ps : list str) :
  snapshot_present oc lang = true ->
  exists c l, oc = Some c /\ lang = Some l /\ c <> [] /\
    render_parts oc lang false (p :: ps) =
      if isCodeBlock p
      then CodeComparison c (code_body p) l :: map render_plain ps
      else render_plain p :: render_parts oc lang false ps.
Proof.
  intros H. destruct oc as [[|c o]|], lang as [l|]; try discriminate.
  exists (c :: o), l. repeat split; [discriminate|].
  simpl. unfold render_plain.
  destruct (isCodeBlock p); [|reflexivity].
  rewrite render_parts_rendered. reflexivity.
Qed.

Lemma diff_count_plain (ps : list str) : diff_count (map render_plain ps) = 0.
Proof.
  unfold diff_count. induction ps as [|p ps IH]; simpl; [reflexivity|].
  rewrite is_diff_render_plain. exact IH.
Qed.

Lemma diff_count_present (oc : option str) (lang : option Language)
    (ps : list str) :
  snapshot_present oc lang = true ->
  diff_count (render_parts oc lang false ps) = Nat.min (code_count ps) 1.
Proof.
  intros H. induction ps as [|p ps IH]; [reflexivity|].
  destruct (render_parts_present oc lang p ps H) as (c & l & _ & _ & _ & E).
  rewrite E. unfold code_count. simpl filter.
  destruct (isCodeBlock p) eqn:Hp.
  - unfold diff_count. simpl.
    fold (diff_count (map render_plain ps)). rewrite diff_count_plain.
    destruct (length (filter isCodeBlock ps)); reflexivity.
  - unfold diff_count. simpl. rewrite is_diff_render_plain. exact IH.
Qed.

Lemma nth_error_plain (ps : list str) (i : nat) (e : Element) :
  nth_error (map render_plain ps) i = Some e ->
  exists p, nth_error ps i = Some p /\ e = render_plain p.
Proof.
  intros H. rewrite nth_error_map in H.
  destruct (nth_error ps i) as [p|]; [|discriminate].
  exists p. inversion H. split; reflexivity.
Qed.

Lemma first_code_at_skip (p : str) (ps : list str) (j : nat) :
  isCodeBlock p = false ->
  first_code_at (p :: ps) (S j) <-> first_code_at ps j.
Proof.
  intros Hp. unfold first_code_at, code_count. simpl. rewrite Hp. reflexivity.
Qed.

Lemma first_code_at_head (p : str) (ps : list str) (i : nat) :
  isCodeBlock p = true -> first_code_at (p :: ps) i <-> i = 0.
Proof.
  intros Hp. unfold first_code_at, code_count. split.
  - intros (q & _ & _ & Hc). destruct i as [|j]; [reflexivity|].
    simpl in Hc. rewrite Hp in Hc. discriminate.
  - intros ->. exists p. repeat split. exact Hp.
Qed.

(** With a snapshot, the element at [i] is a diff exactly when part [i] is
    the first code part. *)
Lemma diff_position (oc : option str) (lang : option Language)
    (ps : list str) (i : nat) (e : Element) :
  snapshot_present oc lang = true ->
  nth_error (render_parts oc lang false ps) i = Some e ->
  (is_diff e = true <-> first_code_at ps i).
Proof.
  intros H. revert i; induction ps as [|p ps IH]; intros i He.
  - destruct i; discriminate.
  - destruct (render_parts_present oc lang p ps H) as (c & l & _ & _ & _ & E).
    rewrite E in He. destruct (isCodeBlock p) eqn:Hp.
    + rewrite (first_code_at_head p ps i Hp). destruct i as [|j]; simpl in He.
      * inversion He. split; reflexivity.
      * apply nth_error_plain in He as (q & _ & ->).
        rewrite is_diff_render_plain. split; discriminate.
    + destruct i as [|j]; simpl in He.
      * inversion He. rewrite is_diff_render_plain. split; [discriminate|].
        intros (q & Hq & Hc & _). simpl in Hq. inversion Hq; subst.
        congruence.
      * rewrite (first_code_at_skip p ps j Hp). apply IH. exact He.
Qed.

(** Every element comes from the part at its position: rendered plainly, or
    as the diff of the snapshot against the body of that part. *)
Lemma element_shape (oc : option str) (lang : option Language) (b : bool)
    (ps : list str) (i : nat) (e : Element) (p : str) :
  nth_error (render_parts oc lang b ps) i = Some e ->
  nth_error ps i = Some p ->
  e = render_plain p \/
  (exists c l, oc = Some c /\ lang = Some l /\ c <> [] /\ isCodeBlock p = true
               /\ e = CodeComparison c (code_body p) l).
Proof.
  revert b i; induction ps as [|q ps IH]; intros b i He Hp.
  - destruct i; discriminate.
  - destruct i as [|j].
    + simpl in Hp. inversion Hp; subst q. simpl in He.
      unfold render_plain.
      destruct (isCodeBlock p) eqn:Hcode, oc as [[|c o]|], lang as [l|], b;
        simpl in He; inversion He; try (left; reflexivity).
      right. exists (c :: o), l. repeat split. discriminate.
    + simpl in Hp. simpl in He.
      destruct (isCodeBlock q), oc as [[|c o]|], lang as [l|], b;
        simpl in He; eapply IH; eauto.
Qed.

(** C1: at most one segment of a response is paired as a diff.  For every
    response and optional snapshot the rendering has one element per part;
    with a snapshot present the diffs are exactly min(N,1) for N code parts
    and the diff sits exactly at the first code part in document order (so
    every later code part is a plain code block); without a snapshot no
    element is a diff, however many code parts there are; a snapshot with no
    code part gives no diff, and the rendering is a total function.  A diff
    compares the snapshot with the body of its part, any other element is
    the plain rendering of its part. *)
Theorem C1_single_diff (content : str) (originalCode : option str)
    (language : option Language) :
  let ps := parts content in
  let out := MarkdownResponse content originalCode language in
  length out = length ps /\
  diff_count out =
    (if snapshot_present originalCode language
     then Nat.min (code_count ps) 1 else 0) /\
  diff_count out <= 1 /\
  (forall i e, nth_error out i = Some e ->
     (is_diff e = true <->
      snapshot_present originalCode language = true /\ first_code_at ps i)) /\
  (forall i e p, nth_error out i = Some e -> nth_error ps i = Some p ->
     if is_diff e
     then exists c l, originalCode = Some c /\ language = Some l
                      /\ e = CodeComparison c (code_body p) l
     else e = render_plain p) /\
  (forall i e p, nth_error out i = Some e -> nth_error ps i = Some p ->
     isCodeBlock p = true -> is_diff e = false ->
     is_plain_code e = true /\ e = CodeBlock (code_lang p) (code_body p)).
Proof.
  intros ps out. unfold out, MarkdownResponse. fold ps.
  assert (Hcount : diff_count (render_parts originalCode language false ps) =
    (if snapshot_present originalCode language
     then Nat.min (code_count ps) 1 else 0)).
  { destruct (snapshot_present originalCode language) eqn:H.
    - apply diff_count_present. exact H.
    - rewrite render_parts_absent by exact H. apply diff_count_plain. }
  split; [apply render_parts_length|].
  split; [exact Hcount|].
  split; [rewrite Hcount; destruct (snapshot_present originalCode language); lia|].
  split; [|split].
  - intros i e He. destruct (snapshot_present originalCode language) eqn:H.
    + rewrite (diff_position originalCode language ps i e H He). tauto.
    + rewrite render_parts_absent in He by exact H.
      apply nth_error_plain in He as (q & _ & ->).
      rewrite is_diff_render_plain. split; [discriminate|].
      intros [F _]. discriminate.
  - intros i e p He Hp.
    destruct (element_shape _ _ _ _ _ _ _ He Hp) as [->|(c & l & Hc & Hl & _ & _ & ->)].
    + rewrite is_diff_render_plain. reflexivity.
    + simpl. exists c, l. repeat split; assumption.
  - intros i e p He Hp Hcode Hd.
    destruct (element_shape _ _ _ _ _ _ _ He Hp) as [->|(c & l & _ & _ & _ & _ & ->)].
    + unfold render_plain. rewrite Hcode. split; reflexivity.
    + discriminate Hd.
Qed.

(** ** Fenced parts *)

Lemma skipn_fence (s : str) : skipn 3 (fence ++ s) = s.
Proof. reflexivity. Qed.

Lemma isCodeBlock_fence (s : str) : isCodeBlock (fence ++ s) = true.
Proof. apply startsWith_app. Qed.

Lemma strip_opening_fence (s : str) : strip_opening (fence ++ s) = after_tag s.
Proof.
  unfold strip_opening. rewrite startsWith_app, skipn_fence. reflexivity.
Qed.

Lemma code_lang_fence (s : str) :
  code_lang (fence ++ s) = takeWhile is_letter s.
Proof.
  unfold code_lang. rewrite startsWith_app, skipn_fence. reflexivity.
Qed.

Lemma strip_closing_fence (s : str) : strip_closing (s ++ fence) = s.
Proof.
  unfold strip_closing. rewrite endsWith_app, length_app.
  replace (length s + length fence - 3) with (length s + 0)
    by (change (length fence) with 3; lia).
  rewrite firstn_app_2. simpl. apply app_nil_r.
Qed.

(** The closing fence is no part of the opening fence line. *)
Lemma after_tag_fence (mid : str) :
  after_tag (mid ++ fence) = after_tag mid ++ fence.
Proof.
  unfold after_tag.
  rewrite (dropWhile_app_stop is_letter mid ["`"%char; "`"%char] "`"%char
             eq_refl : dropWhile is_letter (mid ++ fence) = _).
  change ("`"%char :: ["`"%char; "`"%char]) with fence.
  destruct (dropWhile is_letter mid) as [|c r]; [reflexivity|].
  simpl. destruct (ascii_eqb c "010"%char); reflexivity.
Qed.


Lemma code_body_fenced (mid : str) :
  code_body (fence ++ mid ++ fence) = trim (after_tag mid).
Proof.
  unfold code_body.
  rewrite strip_opening_fence, after_tag_fence, strip_closing_fence.
  reflexivity.
Qed.

Lemma lazy_to_fence_eq (s : str) :
  lazy_to_fence s =
    if startsWith fence s then Some 3
    else match s with
         | [] => None
         | _ :: s' => option_map S (lazy_to_fence s')
         end.
Proof. destruct s; reflexivity. Qed.



Lemma fence_match_fence (r : str) :
  fence_match (fence ++ r) =
    let k := length (takeWhile is_letter r) in
    let without_group := option_map (fun n => 3 + n) (lazy_to_fence r) in
    match skipn k r with
    | c :: r2 =>
        if ascii_eqb c "010"%char then
          match lazy_to_fence r2 with
          | Some n => Some (3 + k + 1 + n)
          | None => without_group
          end
        else without_group
    | [] => without_group
    end.
Proof. unfold fence_match. rewrite startsWith_app, skipn_fence. reflexivity. Qed.

Lemma skipn_takeWhile (f : ascii -> bool) (s : str) :
  skipn (length (takeWhile f s)) s = dropWhile f s.
Proof.
  induction s as [|c s IH]; simpl; [reflexivity|].
  destruct (f c); simpl; [exact IH | reflexivity].
Qed.



Lemma dropWhile_all (f : ascii -> bool) (s : str) :
  forallb f s = true -> dropWhile f s = [].
Proof.
  induction s as [|c s IH]; simpl; [reflexivity|].
  destruct (f c); [exact IH | discriminate].
Qed.

Lemma takeWhile_all (f : ascii -> bool) (s : str) :
  forallb f s = true -> takeWhile f s = s.
Proof.
  induction s as [|c s IH]; simpl; [reflexivity|].
  destruct (f c); [|discriminate]. intros H. rewrite (IH H). reflexivity.
Qed.

(** The opening fence line in its usual shape: a tag of letters and a
    newline. *)
Lemma after_tag_line (tag inner : str) :
  forallb is_letter tag = true ->
  after_tag (tag ++ "010"%char :: inner) = inner.
Proof.
  intros H. unfold after_tag.
  rewrite dropWhile_app_stop by reflexivity.
  rewrite (dropWhile_all is_letter tag H). reflexivity.
Qed.



(** ** Unterminated fences *)

Lemma lazy_to_fence_none_skipn (s : str) (k : nat) :
  lazy_to_fence s = None -> lazy_to_fence (skipn k s) = None.
Proof.
  revert s; induction k as [|k IH]; intros s H; [exact H|].
  destruct s as [|c s]; [exact H|].
  simpl skipn. apply IH.
  rewrite lazy_to_fence_eq in H.
  destruct (startsWith fence (c :: s)); [discriminate|].
  destruct (lazy_to_fence s); [discriminate | reflexivity].
Qed.

Lemma lazy_to_fence_app_fence (x : str) : lazy_to_fence (x ++ fence) <> None.
Proof.
  induction x as [|c x IH]; [intros H; vm_compute in H; discriminate H|].
  change ((c :: x) ++ fence) with (c :: (x ++ fence)).
  rewrite lazy_to_fence_eq.
  destruct (startsWith fence (c :: x ++ fence)); [discriminate|].
  destruct (lazy_to_fence (x ++ fence)) as [n|]; [|contradiction].
  intros H. discriminate H.
Qed.

(** A match of the fence pattern has a closing fence after its opening
    fence. *)
Lemma fence_match_closing (t : str) (n : nat) :
  fence_match t = Some n ->
  exists j, lazy_to_fence (skipn (3 + j) t) <> None.
Proof.
  destruct (startsWith fence t) eqn:E;
    [|unfold fence_match; rewrite E; discriminate].
  apply startsWith_true in E. rewrite E. generalize (skipn (length fence) t).
  intros r. rewrite fence_match_fence. cbv zeta.
  assert (W : option_map (fun n => 3 + n) (lazy_to_fence r) = Some n ->
              exists j, lazy_to_fence (skipn (3 + j) (fence ++ r)) <> None).
  { intros H. exists 0. change (skipn (3 + 0) (fence ++ r)) with r.
    destruct (lazy_to_fence r); discriminate. }
  destruct (skipn (length (takeWhile is_letter r)) r) as [|c r2] eqn:K;
    [exact W|].
  destruct (ascii_eqb c "010"%char); [|exact W].
  destruct (lazy_to_fence r2) as [m|] eqn:L; [|exact W].
  intros _. exists (S (length (takeWhile is_letter r))).
  change (skipn (3 + S (length (takeWhile is_letter r))) (fence ++ r))
    with (skipn (1 + length (takeWhile is_letter r)) r).
  rewrite <- skipn_skipn, K. simpl. rewrite L. discriminate.
Qed.

(** With no fence in [rest], the fence pattern matches nowhere in an opening
    fence followed by [rest]. *)
Lemma no_match_unterminated (rest : str) (k : nat) :
  lazy_to_fence rest = None -> fence_match (skipn k (fence ++ rest)) = None.
Proof.
  intros H. destruct (fence_match (skipn k (fence ++ rest))) as [n|] eqn:M;
    [|reflexivity].
  apply fence_match_closing in M as [j M]. exfalso. apply M.
  rewrite skipn_skipn.
  replace (3 + j + k) with (3 + (j + k)) by lia.
  change (skipn (3 + (j + k)) (fence ++ rest)) with (skipn (j + k) rest).
  apply lazy_to_fence_none_skipn. exact H.
Qed.

Lemma after_tag_skipn (s : str) : exists j, after_tag s = skipn j s.
Proof.
  unfold after_tag. rewrite <- skipn_takeWhile.
  destruct (skipn (length (takeWhile is_letter s)) s) as [|c r] eqn:K.
  - exists (length (takeWhile is_letter s)). symmetry. exact K.
  - destruct (ascii_eqb c "010"%char).
    + exists (1 + length (takeWhile is_letter s)).
      rewrite <- skipn_skipn, K. reflexivity.
    + exists (length (takeWhile is_letter s)). symmetry. exact K.
Qed.

Lemma strip_closing_no_fence (s : str) :
  lazy_to_fence s = None -> strip_closing s = s.
Proof.
  intros H. unfold strip_closing. destruct (endsWith fence s) eqn:E;
    [|reflexivity].
  apply endsWith_true in E. exfalso.
  apply (lazy_to_fence_app_fence (firstn (length s - length fence) s)).
  rewrite <- E. exact H.
Qed.

Lemma code_body_unterminated (rest : str) :
  lazy_to_fence rest = None -> code_body (fence ++ rest) = trim (after_tag rest).
Proof.
  intros H. unfold code_body. rewrite strip_opening_fence.
  destruct (after_tag_skipn rest) as [j ->].
  rewrite strip_closing_no_fence; [reflexivity|].
  apply lazy_to_fence_none_skipn. exact H.
Qed.

Lemma parts_unterminated (rest : str) :
  lazy_to_fence rest = None -> parts (fence ++ rest) = [fence ++ rest].
Proof.
  intros H. unfold parts, regex_split.
  rewrite split_loop_no_match.
  - reflexivity.
  - intros k. apply no_match_unterminated. exact H.
Qed.

(** C4 (as stated) fails: an unterminated fence that opens after other text
    is not a code segment; the whole response stays one piece of prose, the
    fence characters included. *)
Lemma C4_counterexample :
  lazy_to_fence (skipn 8 late_unterminated) = None /\
  isCodeBlock (skipn 5 late_unterminated) = true /\
  segments late_unterminated None None = [Prose late_unterminated] /\
  ~ (exists l b, In (Code l b) (segments late_unterminated None None)).
Proof.
  repeat split. intros (l & b & [H|[]]). discriminate.
Qed.

(** ** List chunks *)

Lemma shown_items_list_child (lines : list str) :
  shown_items (map list_child lines) =
    map (fun line => substring 2 (trim line))
        (filter (fun line => starts_marker (trim line)) lines).
Proof.
  induction lines as [|line lines IH]; simpl; [reflexivity|].
  unfold list_child at 1. destruct (starts_marker (trim line)); simpl;
    rewrite IH; reflexivity.
Qed.

Lemma trimEnd_cons (a : ascii) (s : str) :
  is_space a = false -> trimEnd (a :: s) = a :: trimEnd s.
Proof.
  intros H. unfold trimEnd. cbn [rev].
  rewrite (dropWhile_app_stop is_space (rev s) [] a H), rev_app_distr.
  reflexivity.
Qed.

(** A piece that begins with two stars does not begin with a marker. *)
Lemma marker_not_starred (piece : str) :
  startsWith stars piece = true -> starts_marker (trim piece) = false.
Proof.
  intros H. apply startsWith_true in H. rewrite H.
  generalize (skipn (length stars) piece). intros r.
  change (stars ++ r) with ("*"%char :: "*"%char :: r).
  unfold trim, trimStart. cbn [dropWhile].
  change (is_space "*"%char) with false. cbv iota.
  rewrite !trimEnd_cons by reflexivity. reflexivity.
Qed.

(** What [render_text] makes of a piece, as a segment. *)
Lemma render_text_segment (piece : str) :
  inline_segment (render_text piece) =
    if starts_marker (trim piece)
    then BulletList (marker_items (trim piece))
    else Prose (if startsWith stars piece && endsWith stars piece
                then slice_2_m2 piece else piece).
Proof.
  unfold render_text.
  destruct (startsWith stars piece) eqn:S.
  - rewrite (marker_not_starred piece S). cbn [andb].
    destruct (endsWith stars piece); reflexivity.
  - cbn [andb]. destruct (starts_marker (trim piece)); [|reflexivity].
    cbn [inline_segment]. rewrite shown_items_list_child. reflexivity.
Qed.

(** C3 (as amended): every piece of a non-code part (the text between the
    bold spans the pattern captures) whose trimmed text begins with a bullet
    marker gives a list segment, with one item for each line of the trimmed
    piece that begins, once trimmed, with a marker: the trimmed line without
    its first two characters, in order.  A piece that does not begin with a
    marker gives a prose segment: its text verbatim, or, when it begins and
    ends with two stars, its text without those stars. *)
Theorem C3_list_pieces (part piece : str) :
  isCodeBlock part = false ->
  In piece (regex_split bold_match part) ->
  (starts_marker (trim piece) = true ->
   In (BulletList (marker_items (trim piece)))
      (element_segments (render_plain part))) /\
  (starts_marker (trim piece) = false ->
   In (Prose (if startsWith stars piece && endsWith stars piece
              then slice_2_m2 piece else piece))
      (element_segments (render_plain part))).
Proof.
  intros Hp Hin. unfold render_plain, render_prose. rewrite Hp.
  cbn [element_segments].
  assert (I : In (inline_segment (render_text piece))
                 (map inline_segment
                    (map render_text (regex_split bold_match part))))
    by (apply in_map, in_map; exact Hin).
  rewrite render_text_segment in I.
  split; intros H; rewrite H in I; exact I.
Qed.

(** The scenario of the specification: its two marker lines are the items
    of a list of the rendering. *)
Lemma C3_list_pieces_witness :
  isCodeBlock scenario_list = false /\
  In scenario_list (regex_split bold_match scenario_list) /\
  In (BulletList [js "item one"; js "item two"])
     (element_segments (render_plain scenario_list)).
Proof.
  assert (H1 : isCodeBlock scenario_list = false) by reflexivity.
  assert (H2 : In scenario_list (regex_split bold_match scenario_list))
    by (left; reflexivity).
  exact (conj H1 (conj H2
           (proj1 (C3_list_pieces scenario_list scenario_list H1 H2) eq_refl))).
Defined.

(** C3 (as stated) fails twice.  In the scenario the text after the list is
    not a prose segment: the list is the only segment and "more text" is
    nowhere in the rendering.  And a run of marker lines that does not open
    its piece is no list: the whole piece is prose. *)
Lemma C3_counterexample :
  segments scenario_list None None
    <> [BulletList [js "item one"; js "item two"]; Prose (js "more text")] /\
  segments scenario_list None None
    = [BulletList [js "item one"; js "item two"]] /\
  flat_map element_texts (MarkdownResponse scenario_list None None)
    = [js "item one"; js "item two"] /\
  segments late_list None None = [Prose late_list].
Proof.
  repeat split. intros H. vm_compute in H. discriminate H.
Qed.

(** ** The language of a code block *)

(** C8: a language tag that matches no catalog entry, the empty tag
    included, falls back to a fixed catalog entry, and matching ignores
    case.  For every tag the editor language is an entry of the catalog;
    when no entry equals the tag after lower-casing both it is JavaScript;
    when an entry does, it is that entry; tags that differ only in case get
    the same language. *)
Theorem C8_language_fallback (tag : str) :
  In (normalizedLanguage tag) LANGUAGES /\
  ((forall l, In l LANGUAGES -> toLowerCase (label l) <> toLowerCase tag) ->
   normalizedLanguage tag = JavaScript) /\
  (forall l, toLowerCase (label l) = toLowerCase tag ->
             normalizedLanguage tag = l) /\
  (forall tag', toLowerCase tag' = toLowerCase tag ->
                normalizedLanguage tag' = normalizedLanguage tag) /\
  normalizedLanguage [] = JavaScript.
Proof.
  repeat split.
  - unfold normalizedLanguage.
    destruct (find _ LANGUAGES) as [l|] eqn:F.
    + apply find_some in F. tauto.
    + simpl. tauto.
  - intros H. unfold normalizedLanguage.
    destruct (find _ LANGUAGES) as [l|] eqn:F; [|reflexivity].
    apply find_some in F as [Hin Heq]. apply str_eqb_true in Heq.
    exfalso. exact (H l Hin Heq).
  - intros l H. unfold normalizedLanguage. rewrite <- H.
    destruct l; vm_compute; reflexivity.
  - intros tag' H. unfold normalizedLanguage. rewrite H. reflexivity.
Qed.

(** ** Dispatch *)

(** [handleSubmit] by the way its [switch] ends. *)
Lemma handleSubmit_cases (w : World) (st : AssistantState) :
  handleSubmit w st =
    let s0 := setOriginalCodeForDiff []
                (setError None (setResponse [] (setIsLoading true st))) in
    match dispatch w (mode st) (code st) (userInput st) (language st) (s0, [])
    with
    | (Normal locals, (s', log)) =>
        (Normal tt,
         (setIsLoading false
            (setResponse (snd locals)
               (setOriginalCodeForDiff (fst locals) s')), log))
    | (Return, (s', log)) => (Return, (setIsLoading false s', log))
    | (Throw message, (s', log)) =>
        (Normal tt,
         (setIsLoading false
            (setResponse []
               (setError (Some (if truthy message then message
                                else js "An unexpected error occurred.")) s')),
          log))
    end.
Proof.
  unfold handleSubmit, handleSubmit_body, try_finally, try_catch, bind, update.
  cbn [fst snd].
  destruct (dispatch w (mode st) (code st) (userInput st) (language st) _)
    as [[locals| |message] [s' log]]; reflexivity.
Qed.

(** The three cells are reset before the [switch] looks at anything. *)
Lemma handleSubmit_cleared (w : World) (st : AssistantState) :
  handleSubmit w st = handleSubmit w (cleared st).
Proof. destruct st. reflexivity. Qed.

Ltac str_differ H :=
  apply (proj2 (str_eqb_true _ _)) in H; vm_compute in H; discriminate H.

(** No message of one mode is a message of another. *)
Lemma validation_messages_specific (m1 m2 : AiMode) (message : str) :
  In message (validation_messages m1) ->
  In message (validation_messages m2) -> m1 = m2.
Proof.
  destruct m1, m2; simpl; intros H1 H2; try reflexivity; exfalso;
    repeat match goal with
           | H : _ \/ _ |- _ => destruct H as [H|H]
           | H : False |- _ => contradiction
           end;
    subst message; str_differ H2.
Qed.

(** A missing input ends the [switch] at its guard: an error message of the
    mode, the loading flag cleared, an early return, and nothing called. *)
Lemma dispatch_missing (w : World) (st s0 : AssistantState) :
  required_input_missing st = true ->
  exists message,
    In message (validation_messages (mode st)) /\
    dispatch w (mode st) (code st) (userInput st) (language st) (s0, []) =
      (Return, (setIsLoading false (setError (Some message) s0), [])).
Proof.
  unfold required_input_missing.
  destruct st as [m l c u r i e o]; cbn [mode code userInput language].
  destruct m; intros H; cbn [dispatch validation_messages].
  - exists (js "Please provide both code and a problem description.").
    split; [left; reflexivity|]. rewrite H. reflexivity.
  - exists (js "Please provide a description for the code to generate.").
    split; [left; reflexivity|]. rewrite H. reflexivity.
  - exists (js "Please provide code to debug.").
    split; [left; reflexivity|]. rewrite H. reflexivity.
  - exists (js "Please provide code to refactor.").
    split; [left; reflexivity|]. rewrite H. reflexivity.
  - exists (js "Please provide code to review.").
    split; [left; reflexivity|]. rewrite H. reflexivity.
  - exists (js "Please provide code to generate documentation for.").
    split; [left; reflexivity|]. rewrite H. reflexivity.
  - exists (js "Please provide code to generate tests for.").
    split; [left; reflexivity|]. rewrite H. reflexivity.
  - destruct (github_search u) as [found|] eqn:G; [discriminate|].
    destruct u as [|x u'].
    + exists (js "Please provide a public GitHub repository URL.").
      split; [left; reflexivity | reflexivity].
    + exists (js "Invalid GitHub repository URL. Use format: https://github.com/owner/repo").
      split; [right; left; reflexivity | reflexivity].
Qed.

(** C5: a missing required input aborts the dispatch before any external
    call.  In each of the eight modes, when a required input of the mode
    table is missing (for ANALYZE_REPO: the repository pattern is not found
    in the URL, the empty URL included), the handler makes no call, so
    builds no request; it returns early with an error message that belongs
    to the mode and to no other mode; the snapshot and the response are
    empty, the loading flag is cleared, and the inputs are as they were. *)
Theorem C5_validation_aborts (w : World) (st : AssistantState) :
  required_input_missing st = true ->
  calls_of w st = [] /\
  completion_of w st = Return /\
  (exists message,
     error (state_after w st) = Some message /\
     In message (validation_messages (mode st)) /\
     forall m, In message (validation_messages m) -> m = mode st) /\
  originalCodeForDiff (state_after w st) = [] /\
  response (state_after w st) = [] /\
  isLoading (state_after w st) = false /\
  mode (state_after w st) = mode st /\
  language (state_after w st) = language st /\
  code (state_after w st) = code st /\
  userInput (state_after w st) = userInput st.
Proof.
  intros H. unfold calls_of, completion_of, state_after.
  rewrite handleSubmit_cases. cbv zeta.
  destruct (dispatch_missing w st
              (setOriginalCodeForDiff []
                 (setError None (setResponse [] (setIsLoading true st)))) H)
    as (message & Hin & ->).
  cbn. repeat split.
  exists message. repeat split; [exact Hin|].
  intros m Hm. exact (validation_messages_specific m (mode st) message Hm Hin).
Qed.

(** Scenario 2 of the specification: ASSIST with code and no problem
    description. *)
Lemma C5_validation_aborts_witness :
  required_input_missing (sample_state ASSIST (js "x=1") []) = true /\
  calls_of sample_world (sample_state ASSIST (js "x=1") []) = [] /\
  error (state_after sample_world (sample_state ASSIST (js "x=1") []))
    = Some (js "Please provide both code and a problem description.").
Proof.
  split; [reflexivity|].
  split; [|reflexivity].
  exact (proj1 (C5_validation_aborts sample_world
                  (sample_state ASSIST (js "x=1") []) eq_refl)).
Defined.

Ltac run_handler :=
  unfold abort, await_body, await_call, await_fetch, try_catch, bind, update,
    early_return, throw, ret;
  cbn [fst snd];
  repeat match goal with
         | |- context [match ?x with _ => _ end] =>
             lazymatch x with
             | context [match _ with _ => _ end] => fail
             | _ => destruct x eqn:?
             end
         end.

(** Where the [switch] completes, the local [originalCode] is the code for
    the modes that retain it and empty for the others, the code was not
    empty where it is retained, and no setter has run. *)
Lemma dispatch_normal (w : World) (m : AiMode) (c u : str) (l : Language)
    (s s' : AssistantState * list Call) (locals : str * str) :
  dispatch w m c u l s = (Normal locals, s') ->
  fst locals = (if retainsOriginalCode m then c else []) /\
  (retainsOriginalCode m = true -> c <> []) /\
  fst s' = fst s.
Proof.
  destruct m; cbn [dispatch retainsOriginalCode]; run_handler;
    intros H; inversion H; subst; cbn [fst snd];
    repeat split; try discriminate;
    intros _ ->; discriminate.
Qed.

Lemma no_snapshot_no_diff (content : str) (oc : option str)
    (l : option Language) :
  snapshot_present oc l = false ->
  diff_count (MarkdownResponse content oc l) = 0.
Proof.
  intros H. unfold MarkdownResponse.
  rewrite render_parts_absent by exact H. apply diff_count_plain.
Qed.

(** C6: a successful dispatch captures the snapshot exactly in the modes
    ASSIST, DEBUG and REFACTOR.  After a dispatch that succeeded the
    snapshot is the submitted code in those three modes and empty in the
    five others; it is not empty exactly in those three modes; and in the
    five others the response view holds no diff. *)
Theorem C6_snapshot_by_mode (w : World) (st : AssistantState) :
  succeeded w st ->
  originalCodeForDiff (state_after w st) =
    (if retainsOriginalCode (mode st) then code st else []) /\
  (originalCodeForDiff (state_after w st) <> [] <->
   retainsOriginalCode (mode st) = true) /\
  (retainsOriginalCode (mode st) = false ->
   diff_count (response_view (state_after w st)) = 0).
Proof.
  unfold succeeded, completion_of, state_after.
  rewrite handleSubmit_cases. cbv zeta.
  destruct (dispatch w (mode st) (code st) (userInput st) (language st) _)
    as [[locals| |message] [s' log]] eqn:D; cbn [fst snd]; intros [Hc He];
    [| discriminate Hc | cbn in He; discriminate He].
  apply dispatch_normal in D as (Hl & Hne & _).
  unfold response_view.
  cbn [originalCodeForDiff response language setIsLoading setResponse
       setOriginalCodeForDiff].
  rewrite Hl. split; [reflexivity|]. split.
  - destruct (retainsOriginalCode (mode st)).
    + split; [reflexivity|]. intros _. apply Hne. reflexivity.
    + split; [intros F; exfalso; apply F; reflexivity | discriminate].
  - intros Hr. rewrite Hr. apply no_snapshot_no_diff. reflexivity.
Qed.

(** Scenario 3 of the specification: REFACTOR keeps the submitted code. *)
Lemma C6_snapshot_by_mode_witness :
  succeeded sample_world (sample_state REFACTOR (js "def f(): pass") []) /\
  originalCodeForDiff
    (state_after sample_world (sample_state REFACTOR (js "def f(): pass") []))
    = js "def f(): pass".
Proof.
  split; [split; reflexivity|].
  exact (proj1 (C6_snapshot_by_mode sample_world
                  (sample_state REFACTOR (js "def f(): pass") [])
                  (conj eq_refl eq_refl))).
Defined.

(** ** Mode switch *)

(** C7: switching the mode clears the drafts and the results.  Whatever the
    current mode and the mode chosen, the click sets the chosen mode and
    leaves the code input, the description input, the response, the error
    and the snapshot empty; language, theme and authentication state (and
    the loading flag) are as before.  Nothing of the drafts survives: two
    applications that agree on those untouched cells are in the same state
    after the click. *)
Theorem C7_mode_switch_clears (value : AiMode) (app : AppState) :
  let app' := click_mode value app in
  mode (assistant app') = value /\
  code (assistant app') = [] /\
  userInput (assistant app') = [] /\
  response (assistant app') = [] /\
  error (assistant app') = None /\
  originalCodeForDiff (assistant app') = [] /\
  language (assistant app') = language (assistant app) /\
  isLoading (assistant app') = isLoading (assistant app) /\
  theme app' = theme app /\
  isAuthenticated app' = isAuthenticated app /\
  (forall other,
     language (assistant other) = language (assistant app) ->
     isLoading (assistant other) = isLoading (assistant app) ->
     theme other = theme app ->
     isAuthenticated other = isAuthenticated app ->
     click_mode value other = app').
Proof.
  intros app'. unfold app'. repeat split.
  intros other Hl Hi Ht Ha.
  unfold click_mode, ModeButton_onClick, setOriginalCodeForDiff, setError,
    setUserInput, setCode, setResponse, setMode.
  cbn. rewrite Hl, Hi, Ht, Ha. reflexivity.
Qed.

(** ** Reset at dispatch start *)

(** C10: every dispatch resets the response, the error and the snapshot
    before it validates.  The handler does exactly what it would do from the
    state with those three cells already cleared; and when validation then
    fails, the response and the snapshot shown before are gone: both are
    empty although no call was made, and the error is the new message, not
    the earlier one. *)
Theorem C10_reset_before_validation (w : World) (st : AssistantState) :
  handleSubmit w st = handleSubmit w (cleared st) /\
  (required_input_missing st = true ->
   response (state_after w st) = [] /\
   originalCodeForDiff (state_after w st) = [] /\
   calls_of w st = [] /\
   exists message, error (state_after w st) = Some message /\
                   In message (validation_messages (mode st))).
Proof.
  split; [apply handleSubmit_cleared|].
  intros H. unfold calls_of, state_after.
  rewrite handleSubmit_cases. cbv zeta.
  destruct (dispatch_missing w st
              (setOriginalCodeForDiff []
                 (setError None (setResponse [] (setIsLoading true st)))) H)
    as (message & Hin & ->).
  cbn. repeat split. exists message. split; [reflexivity | exact Hin].
Qed.

(** * Further properties *)

Arguments startsWith : simpl never.

(** ** The fence pattern *)

Lemma is_letter_not_backtick (c : ascii) :
  is_letter c = true -> not_backtick c = true.
Proof.
  destruct c as [[] [] [] [] [] [] [] []]; vm_compute; intros H;
    first [reflexivity | discriminate H].
Qed.

Lemma forallb_takeWhile (f : ascii -> bool) (s : str) :
  forallb f (takeWhile f s) = true.
Proof.
  induction s as [|c s IH]; simpl; [reflexivity|].
  destruct (f c) eqn:E; simpl; [rewrite E; exact IH | reflexivity].
Qed.

Lemma startsWith_fence_cons (c : ascii) (s : str) :
  not_backtick c = true -> startsWith fence (c :: s) = false.
Proof.
  intros H.
  assert (E : ascii_eqb "`"%char c = false).
  { unfold not_backtick, ascii_eqb in *. rewrite Ascii.eqb_sym.
    apply negb_true_iff. exact H. }
  change (startsWith fence (c :: s))
    with (ascii_eqb "`"%char c && startsWith (js "``") s).
  rewrite E. reflexivity.
Qed.

(** Characters that are no backticks are skipped by the lazy run. *)
Lemma lazy_to_fence_skip (pre s : str) :
  forallb not_backtick pre = true ->
  lazy_to_fence (pre ++ s) =
    option_map (fun n => length pre + n) (lazy_to_fence s).
Proof.
  induction pre as [|c pre IH]; intros H.
  - simpl. destruct (lazy_to_fence s); reflexivity.
  - simpl in H. apply andb_prop in H as [Hc Hp].
    change ((c :: pre) ++ s) with (c :: (pre ++ s)).
    rewrite lazy_to_fence_eq, (startsWith_fence_cons c (pre ++ s) Hc).
    rewrite (IH Hp). destruct (lazy_to_fence s); reflexivity.
Qed.

(** The optional tag group of the fence pattern never changes a match: it
    only consumes letters and a newline, which the lazy run would skip. *)
Lemma fence_match_first (r : str) :
  fence_match (fence ++ r) = option_map (fun n => 3 + n) (lazy_to_fence r).
Proof.
  rewrite fence_match_fence. cbv zeta. rewrite skipn_takeWhile.
  destruct (dropWhile is_letter r) as [|c r2] eqn:K; [reflexivity|].
  destruct (ascii_eqb c "010"%char) eqn:E; [|reflexivity].
  destruct (lazy_to_fence r2) as [n|] eqn:L; [|reflexivity].
  apply ascii_eqb_true in E. subst c.
  rewrite <- (takeWhile_dropWhile is_letter r) at 2. rewrite K.
  change (takeWhile is_letter r ++ "010"%char :: r2)
    with (takeWhile is_letter r ++ ["010"%char] ++ r2).
  rewrite app_assoc, lazy_to_fence_skip, L.
  - cbn [option_map]. rewrite length_app. cbn [length]. f_equal; lia.
  - rewrite forallb_app. simpl. rewrite andb_true_r.
    apply forallb_forall. intros x Hx.
    apply is_letter_not_backtick.
    pose proof (forallb_takeWhile is_letter r) as F.
    rewrite forallb_forall in F. apply F. exact Hx.
Qed.

(** The lazy run ends with the first fence of its text. *)
Lemma lazy_to_fence_first (s : str) (n : nat) :
  lazy_to_fence s = Some n ->
  3 <= n /\ n <= length s /\
  startsWith fence (skipn (n - 3) s) = true /\
  forall j, j < n - 3 -> startsWith fence (skipn j s) = false.
Proof.
  revert n; induction s as [|c s IH]; intros n; rewrite lazy_to_fence_eq.
  - discriminate.
  - destruct (startsWith fence (c :: s)) eqn:E.
    + intros H. injection H as <-. repeat split; try lia.
      * apply startsWith_true in E. rewrite E. simpl. lia.
      * exact E.
    + destruct (lazy_to_fence s) as [m|]; [|discriminate].
      intros H. simpl in H. injection H as <-.
      destruct (IH m eq_refl) as (H3 & Hl & Hs & Hj).
      repeat split; simpl; try lia.
      * replace (m - 2) with (S (m - 3)) by lia. exact Hs.
      * intros j Hlt. destruct j as [|j]; [exact E|].
        simpl. apply Hj. lia.
Qed.

Lemma lazy_to_fence_least (s : str) (m : nat) :
  startsWith fence (skipn m s) = true ->
  (forall j, j < m -> startsWith fence (skipn j s) = false) ->
  lazy_to_fence s = Some (m + 3).
Proof.
  revert s; induction m as [|m IH]; intros s Hs Hj; rewrite lazy_to_fence_eq.
  - simpl in Hs. rewrite Hs. reflexivity.
  - pose proof (Hj 0 ltac:(lia)) as H0. simpl in H0. rewrite H0.
    destruct s as [|c s]; [discriminate Hs|].
    rewrite (IH s).
    + reflexivity.
    + exact Hs.
    + intros j Hlt. apply (Hj (S j)). lia.
Qed.

(** X1: a match of the fence pattern runs from a fence to the first fence
    that starts at least three characters later, and the optional tag group
    of the pattern has no part in it. *)
Theorem fence_match_to_first_closing_fence (s : str) (n : nat) :
  fence_match s = Some n <->
  startsWith fence s = true /\ 6 <= n /\ n <= length s /\
  startsWith fence (skipn (n - 3) s) = true /\
  (forall j, 3 <= j -> j < n - 3 -> startsWith fence (skipn j s) = false).
Proof.
  destruct (startsWith fence s) eqn:E.
  - apply startsWith_true in E. change (length fence) with 3 in E.
    set (r := skipn 3 s) in *.
    assert (K : forall j, skipn (3 + j) s = skipn j r).
    { intros j. unfold r. rewrite skipn_skipn. f_equal. lia. }
    assert (Ls : length s = 3 + length r).
    { rewrite E at 1. rewrite length_app. reflexivity. }
    assert (M : fence_match s = option_map (fun n => 3 + n) (lazy_to_fence r)).
    { rewrite E at 1. apply fence_match_first. }
    rewrite M. split.
    + destruct (lazy_to_fence r) as [m|] eqn:L; [|discriminate].
      simpl. intros H. injection H as <-.
      apply lazy_to_fence_first in L as (H3 & Hl & Hs & Hj).
      repeat split; try lia.
      * replace (S (S (S m)) - 3) with (3 + (m - 3)) by lia.
        rewrite K. exact Hs.
      * intros j Hj3 Hlt. replace j with (3 + (j - 3)) by lia.
        rewrite K. apply Hj. lia.
    + intros (_ & H6 & Hl & Hs & Hj).
      rewrite (lazy_to_fence_least r (n - 6)).
      * simpl. f_equal. lia.
      * rewrite <- K. replace (3 + (n - 6)) with (n - 3) by lia. exact Hs.
      * intros j Hlt. rewrite <- K. apply Hj; lia.
  - unfold fence_match. rewrite E. split; [discriminate|].
    intros (F & _). discriminate F.
Qed.

(** ** Composition of the segmentation *)

Lemma startsWith_app_r (p x b : str) :
  startsWith p x = true -> startsWith p (x ++ b) = true.
Proof.
  intros H. apply startsWith_true in H. rewrite H, <- app_assoc.
  apply startsWith_app.
Qed.

Lemma startsWith_app_long (p x b : str) :
  length p <= length x -> startsWith p (x ++ b) = startsWith p x.
Proof.
  revert x; induction p as [|c p IH]; intros x H; [reflexivity|].
  destruct x as [|y x]; [simpl in H; lia|].
  change (startsWith (c :: p) ((y :: x) ++ b))
    with (ascii_eqb c y && startsWith p (x ++ b)).
  change (startsWith (c :: p) (y :: x)) with (ascii_eqb c y && startsWith p x).
  rewrite IH; [reflexivity|]. simpl in H. lia.
Qed.

(** Text after the first fence does not change where the lazy run ends. *)
Lemma lazy_to_fence_app (a b : str) (n : nat) :
  lazy_to_fence a = Some n -> lazy_to_fence (a ++ b) = Some n.
Proof.
  intros H. apply lazy_to_fence_first in H as (H3 & Hl & Hs & Hj).
  replace n with (n - 3 + 3) by lia. apply lazy_to_fence_least.
  - rewrite skipn_app. apply startsWith_app_r. exact Hs.
  - intros j Hlt. rewrite skipn_app.
    replace (j - length a) with 0 by lia. simpl skipn at 2.
    rewrite startsWith_app_long; [apply Hj; exact Hlt|].
    rewrite length_skipn. change (length fence) with 3. lia.
Qed.

Lemma fence_match_cons (c : ascii) (s : str) :
  not_backtick c = true -> fence_match (c :: s) = None.
Proof.
  intros H. unfold fence_match. rewrite (startsWith_fence_cons c s H).
  reflexivity.
Qed.

(** The split loop runs over text without backticks without a match. *)
Lemma split_loop_prefix (pre cur s : str) (fuel : nat) :
  forallb not_backtick pre = true ->
  split_loop fence_match (length pre + fuel) cur (pre ++ s) =
    split_loop fence_match fuel (cur ++ pre) s.
Proof.
  revert cur; induction pre as [|c pre IH]; intros cur H.
  - simpl. rewrite app_nil_r. reflexivity.
  - simpl in H. apply andb_prop in H as [Hc Hp].
    change (length (c :: pre) + fuel) with (S (length pre + fuel)).
    change ((c :: pre) ++ s) with (c :: (pre ++ s)).
    cbn [split_loop]. rewrite (fence_match_cons c (pre ++ s) Hc).
    rewrite (IH (cur ++ [c]) Hp), <- app_assoc. reflexivity.
Qed.

Lemma split_loop_match (re : str -> option nat) (fuel n : nat) (cur s : str) :
  re s = Some (S n) -> s <> [] ->
  split_loop re (S fuel) cur s =
    cur :: firstn (S n) s :: split_loop re fuel [] (skipn (S n) s).
Proof.
  intros H Hs. destruct s as [|c s]; [contradiction|].
  cbn [split_loop]. rewrite H. reflexivity.
Qed.

Lemma fence_match_fenced (inner post : str) :
  lazy_to_fence (inner ++ fence) = Some (length inner + 3) ->
  fence_match (fence ++ inner ++ fence ++ post) = Some (S (length inner + 5)).
Proof.
  intros H. rewrite fence_match_first.
  rewrite app_assoc, (lazy_to_fence_app (inner ++ fence) post _ H).
  cbn [option_map]. f_equal; lia.
Qed.

Lemma parts_text_block (pre inner post : str) :
  forallb not_backtick pre = true ->
  lazy_to_fence (inner ++ fence) = Some (length inner + 3) ->
  parts (pre ++ fence ++ inner ++ fence ++ post) =
    filter truthy [pre] ++ (fence ++ inner ++ fence) :: parts post.
Proof.
  intros Hpre Hin. unfold parts, regex_split.
  set (s := fence ++ inner ++ fence ++ post).
  assert (Ls : length s = length inner + 6 + length post).
  { unfold s. rewrite !length_app. change (length fence) with 3. lia. }
  rewrite (split_loop_fuel fence_match (S (length (pre ++ s)))
             (length pre + S (length s)) [] (pre ++ s))
    by (rewrite length_app; lia).
  rewrite (split_loop_prefix pre [] s (S (length s)) Hpre).
  rewrite (split_loop_match fence_match (length s) (length inner + 5)
             ([] ++ pre) s (fence_match_fenced inner post Hin))
    by (unfold s; discriminate).
  assert (F : firstn (S (length inner + 5)) s = fence ++ inner ++ fence).
  { unfold s. replace (S (length inner + 5))
      with (length (fence ++ inner ++ fence) + 0)
      by (rewrite !length_app; change (length fence) with 3; lia).
    replace (fence ++ inner ++ fence ++ post)
      with ((fence ++ inner ++ fence) ++ post)
      by (rewrite <- !app_assoc; reflexivity).
    rewrite firstn_app_2. simpl firstn. rewrite app_nil_r. reflexivity. }
  assert (K : skipn (S (length inner + 5)) s = post).
  { unfold s. replace (S (length inner + 5))
      with (length (fence ++ inner ++ fence))
      by (rewrite !length_app; change (length fence) with 3; lia).
    replace (fence ++ inner ++ fence ++ post)
      with ((fence ++ inner ++ fence) ++ post)
      by (rewrite <- !app_assoc; reflexivity).
    rewrite skipn_app, skipn_all, Nat.sub_diag. reflexivity. }
  rewrite F, K.
  rewrite (split_loop_fuel fence_match (length s) (S (length post)) [] post)
    by lia.
  simpl app at 1. cbn [filter].
  destruct pre as [|c pre]; reflexivity.
Qed.

(** X2: the segmentation is compositional.  Text without backticks, then a
    fenced block whose inner text holds no earlier closing fence, then any
    rest: the parts are that text (when not empty), the block with its
    fences, and the parts of the rest. *)
Theorem parts_of_text_block_rest (pre inner post : str) :
  forallb not_backtick pre = true ->
  lazy_to_fence (inner ++ fence) = Some (length inner + 3) ->
  parts (pre ++ fence ++ inner ++ fence ++ post) =
    filter truthy [pre] ++ (fence ++ inner ++ fence) :: parts post.
Proof. apply parts_text_block. Qed.

(** Scenario 1 of the specification. *)
Lemma parts_of_text_block_rest_witness :
  forallb not_backtick (js "Here is code:
") = true /\
  lazy_to_fence (js "python
print(1)
" ++ fence) = Some (length (js "python
print(1)
") + 3) /\
  parts (js "Here is code:
```python
print(1)
```
done") = [js "Here is code:
"; js "```python
print(1)
```"; js "
done"].
Proof.
  split; [reflexivity|]. split; [reflexivity|].
  exact (parts_of_text_block_rest (js "Here is code:
") (js "python
print(1)
") (js "
done") eq_refl eq_refl).
Defined.

Lemma parts_no_backtick (content : str) :
  forallb not_backtick content = true ->
  parts content = filter truthy [content].
Proof.
  intros H. unfold parts, regex_split.
  rewrite <- (app_nil_r content) at 2.
  replace (S (length content)) with (length content + 1) by lia.
  rewrite (split_loop_prefix content [] [] 1 H). reflexivity.
Qed.

(** X3: a response without a backtick is never code.  It is empty and gives
    no element, or it is one part rendered as text, whatever the snapshot:
    no code block, no diff. *)
Theorem no_backtick_no_code (content : str) (originalCode : option str)
    (language : option Language) :
  forallb not_backtick content = true ->
  MarkdownResponse content originalCode language =
    match content with
    | [] => []
    | _ :: _ => [render_prose content]
    end.
Proof.
  intros H. unfold MarkdownResponse. rewrite (parts_no_backtick content H).
  destruct content as [|c content]; [reflexivity|].
  simpl in H. apply andb_prop in H as [Hc _].
  cbn [filter truthy render_parts].
  unfold isCodeBlock. rewrite (startsWith_fence_cons c content Hc).
  reflexivity.
Qed.

Lemma no_backtick_no_code_witness :
  forallb not_backtick (js "plain words") = true /\
  MarkdownResponse (js "plain words") (Some (js "x = 1")) (Some Python)
    = [TextDiv [Span (js "plain words")]].
Proof.
  split; [reflexivity|].
  exact (no_backtick_no_code (js "plain words") (Some (js "x = 1"))
           (Some Python) eq_refl).
Defined.

(** ** Bold spans and plain text *)

Lemma lazy_to_stars_eq (s : str) :
  lazy_to_stars s =
    if startsWith stars s then Some 2
    else match s with
         | [] => None
         | c :: s' =>
             if is_line_terminator c then None
             else option_map S (lazy_to_stars s')
         end.
Proof. destruct s; reflexivity. Qed.

Lemma lazy_to_stars_shape (s : str) (n : nat) :
  lazy_to_stars s = Some n ->
  exists inner, firstn n s = inner ++ stars
                /\ forallb not_line_terminator inner = true.
Proof.
  revert n; induction s as [|c s IH]; intros n; rewrite lazy_to_stars_eq.
  - discriminate.
  - destruct (startsWith stars (c :: s)) eqn:E.
    + intros H. injection H as <-. exists []. split; [|reflexivity].
      apply startsWith_true in E. rewrite E. reflexivity.
    + destruct (is_line_terminator c) eqn:T; [discriminate|].
      destruct (lazy_to_stars s) as [m|]; [|discriminate].
      intros H. simpl in H. injection H as <-.
      destruct (IH m eq_refl) as (x & Hx & Hf). exists (c :: x). split.
      * simpl. rewrite Hx. reflexivity.
      * simpl. unfold not_line_terminator at 1. rewrite T. exact Hf.
Qed.

(** A match of the bold pattern is two stars, text of one line, two
    stars. *)
Lemma bold_match_shape (s : str) (n : nat) :
  bold_match s = Some n ->
  exists inner, firstn n s = stars ++ inner ++ stars
                /\ forallb not_line_terminator inner = true.
Proof.
  unfold bold_match. destruct (startsWith stars s) eqn:E; [|discriminate].
  apply startsWith_true in E. change (length stars) with 2 in E.
  destruct (lazy_to_stars (skipn 2 s)) as [m|] eqn:L; [|discriminate].
  intros H. simpl in H. injection H as <-.
  destruct (lazy_to_stars_shape (skipn 2 s) m L) as (x & Hx & Hf).
  exists x. split; [|exact Hf].
  rewrite E. change (S (S m)) with (length stars + m).
  rewrite firstn_app_2, Hx. reflexivity.
Qed.

Lemma captured_split_loop (re : str -> option nat) (P : str -> Prop)
    (fuel : nat) (cur s : str) :
  (forall t n, re t = Some (S n) -> P (firstn (S n) t)) ->
  Forall P (captured (split_loop re fuel cur s)).
Proof.
  intros H. revert cur s; induction fuel as [|fuel IH]; intros cur s.
  - constructor.
  - cbn [split_loop]. destruct s as [|c s]; [constructor|].
    destruct (re (c :: s)) as [[|n]|] eqn:M; try apply IH.
    cbn [captured]. constructor; [apply H; exact M | apply IH].
Qed.

Lemma render_text_bold (inner : str) :
  render_text (stars ++ inner ++ stars) = Strong inner.
Proof.
  unfold render_text. rewrite startsWith_app.
  replace (endsWith stars (stars ++ inner ++ stars)) with true
    by (rewrite app_assoc; symmetry; apply endsWith_app).
  cbn [andb]. f_equal. unfold slice_2_m2.
  rewrite !length_app. change (length stars) with 2.
  change (skipn 2 (stars ++ inner ++ stars)) with (inner ++ stars).
  replace (2 + (length inner + 2) - 2 - 2) with (length inner + 0) by lia.
  rewrite firstn_app_2. simpl. apply app_nil_r.
Qed.

(** X4: every span the bold pattern captures in a non-code part is two stars,
    text that stays on one line, two stars, and is rendered as strong text
    of exactly that inner text, the stars removed. *)
Theorem bold_spans_rendered_strong (part : str) :
  Forall (fun p => exists inner,
            p = stars ++ inner ++ stars
            /\ forallb not_line_terminator inner = true
            /\ render_text p = Strong inner)
         (captured (regex_split bold_match part)).
Proof.
  apply captured_split_loop. intros t n M.
  destruct (bold_match_shape t (S n) M) as (inner & Hs & Hf).
  exists inner. rewrite Hs. repeat split; [exact Hf|].
  apply render_text_bold.
Qed.

Lemma forallb_skipn (f : ascii -> bool) (s : str) (k : nat) :
  forallb f s = true -> forallb f (skipn k s) = true.
Proof.
  revert s; induction k as [|k IH]; intros s H; [exact H|].
  destruct s as [|c s]; [reflexivity|].
  simpl in H. apply andb_prop in H as [_ H]. simpl. apply IH. exact H.
Qed.

Lemma forallb_dropWhile (f g : ascii -> bool) (s : str) :
  forallb f s = true -> forallb f (dropWhile g s) = true.
Proof.
  induction s as [|c s IH]; intros H; [reflexivity|].
  simpl. destruct (g c); [|exact H].
  simpl in H. apply andb_prop in H as [_ H]. apply IH. exact H.
Qed.

Lemma forallb_rev (f : ascii -> bool) (s : str) :
  forallb f s = true -> forallb f (rev s) = true.
Proof.
  intros H. apply forallb_forall. intros x Hx.
  rewrite forallb_forall in H. apply H. apply in_rev. exact Hx.
Qed.

Lemma forallb_trim (f : ascii -> bool) (s : str) :
  forallb f s = true -> forallb f (trim s) = true.
Proof.
  intros H. unfold trim, trimEnd, trimStart.
  apply forallb_rev, forallb_dropWhile, forallb_rev, forallb_dropWhile.
  exact H.
Qed.

Lemma startsWith_star_none (p s : str) :
  forallb not_star s = true -> startsWith ("*"%char :: p) s = false.
Proof.
  destruct s as [|c s]; [reflexivity|]. simpl. intros H.
  apply andb_prop in H as [H _].
  change (startsWith ("*"%char :: p) (c :: s))
    with (ascii_eqb "*"%char c && startsWith p s).
  unfold not_star, ascii_eqb in *. rewrite Ascii.eqb_sym.
  apply negb_true_iff in H. rewrite H. reflexivity.
Qed.

(** X5: text without a star that does not begin, once trimmed, with a dash
    marker is shown verbatim: one span holding exactly the text. *)
Theorem plain_text_verbatim (text : str) :
  forallb not_star text = true ->
  startsWith (js "- ") (trim text) = false ->
  render_prose text = TextDiv [Span text].
Proof.
  intros Hs Hd. unfold render_prose, regex_split.
  rewrite split_loop_no_match.
  - cbn [app map]. unfold render_text.
    rewrite (startsWith_star_none ["*"%char] text Hs : startsWith stars text = false).
    cbn [andb]. unfold starts_marker.
    rewrite (startsWith_star_none [" "%char] (trim text)
               (forallb_trim not_star text Hs)
             : startsWith (js "* ") (trim text) = false).
    rewrite Hd. reflexivity.
  - intros k. unfold bold_match.
    rewrite (startsWith_star_none ["*"%char] (skipn k text)
               (forallb_skipn not_star text k Hs)
             : startsWith stars (skipn k text) = false).
    reflexivity.
Qed.

Lemma plain_text_verbatim_witness :
  forallb not_star (js "  two
lines ") = true /\
  startsWith (js "- ") (trim (js "  two
lines ")) = false /\
  render_prose (js "  two
lines ") = TextDiv [Span (js "  two
lines ")].
Proof.
  split; [reflexivity|]. split; [reflexivity|].
  exact (plain_text_verbatim (js "  two
lines ") eq_refl eq_refl).
Defined.

(** ** Language tags and the catalog *)

Lemma lower_letter_not_plus (c : ascii) :
  is_letter c = true -> lower_char c <> "+"%char.
Proof.
  destruct c as [[] [] [] [] [] [] [] []]; vm_compute; intros H;
    first [discriminate H | intros E; discriminate E].
Qed.

Lemma code_lang_letters (part : str) :
  forallb is_letter (code_lang part) = true.
Proof.
  unfold code_lang. destruct (startsWith fence part); [|reflexivity].
  apply forallb_takeWhile.
Qed.

Lemma letters_never_cpp (tag : str) :
  forallb is_letter tag = true -> normalizedLanguage tag <> Cpp.
Proof.
  intros H. unfold normalizedLanguage.
  destruct (find _ LANGUAGES) as [l|] eqn:F; [|discriminate].
  intros ->. apply find_some in F as [_ F]. apply str_eqb_true in F.
  change (toLowerCase (label Cpp)) with (js "c++") in F.
  destruct tag as [|a [|b [|c [|d tag]]]]; try discriminate F.
  simpl in H. apply andb_prop in H as [_ H]. apply andb_prop in H as [H _].
  injection F as _ F _. symmetry in F.
  exact (lower_letter_not_plus b H F).
Qed.

(** X6: the catalog entry C++ cannot be reached from a response.  The tag
    read off a code part holds letters only, so the editor of a code block
    never gets the language C++ nor its syntax support, whatever the part;
    every other entry of the catalog is reached by its lower-cased label as
    tag. *)
Theorem cpp_tag_unreachable :
  (forall part, normalizedLanguage (code_lang part) <> Cpp
                /\ code_block_support (code_lang part) <> cpp) /\
  (forall l body, l <> Cpp ->
     normalizedLanguage
       (code_lang (fence ++ toLowerCase (label l) ++ "010"%char :: body)) = l).
Proof.
  split.
  - intros part.
    pose proof (letters_never_cpp (code_lang part) (code_lang_letters part)) as N.
    split; [exact N|]. unfold code_block_support.
    destruct (normalizedLanguage (code_lang part)); try discriminate.
    contradiction.
  - intros l body Hl. rewrite code_lang_fence.
    rewrite takeWhile_app_stop by reflexivity.
    destruct l; try contradiction; vm_compute; reflexivity.
Qed.

(** ** The dispatch on every path *)

Ltac run_paths :=
  unfold abort, await_body, await_call, await_fetch, try_catch, bind, update,
    early_return, throw, ret;
  cbv beta iota zeta delta [fst snd];
  repeat (match goal with
          | |- context [match ?x with _ => _ end] =>
              lazymatch x with
              | context [match _ with _ => _ end] => fail
              | _ => destruct x eqn:?
              end
          end; cbv beta iota zeta delta [fst snd]).

(** The [switch] never reads the state cells: from two states and the same
    call log it ends the same way with the same calls, and it either leaves
    the state alone or, returning early, leaves the same error in both. *)
Lemma dispatch_uniform (w : World) (m : AiMode) (c u : str) (l : Language)
    (log : list Call) (s1 s2 : AssistantState) :
  fst (dispatch w m c u l (s1, log)) = fst (dispatch w m c u l (s2, log)) /\
  snd (snd (dispatch w m c u l (s1, log)))
    = snd (snd (dispatch w m c u l (s2, log))) /\
  ((fst (dispatch w m c u l (s1, log)) <> Return
    /\ fst (snd (dispatch w m c u l (s1, log))) = s1
    /\ fst (snd (dispatch w m c u l (s2, log))) = s2)
   \/ (fst (dispatch w m c u l (s1, log)) = Return
       /\ exists message,
            fst (snd (dispatch w m c u l (s1, log))) = abort_state message s1
            /\ fst (snd (dispatch w m c u l (s2, log)))
                 = abort_state message s2)).
Proof.
  destruct m; cbn [dispatch]; run_paths;
    (split; [reflexivity|]); (split; [reflexivity|]);
    first [ left; repeat split; discriminate
          | right; split; [reflexivity|]; eexists; split; reflexivity ].
Qed.

(** The three ways [handleSubmit] ends: the [switch] completed, a guard or
    the inner [catch] returned early, or the outer [catch] ran. *)
Lemma handleSubmit_ends (w : World) (st : AssistantState) :
  (exists locals log,
     dispatch w (mode st) (code st) (userInput st) (language st)
       (started st, []) = (Normal locals, (started st, log))
     /\ handleSubmit w st =
          (Normal tt,
           (setIsLoading false
              (setResponse (snd locals)
                 (setOriginalCodeForDiff (fst locals) (started st))), log)))
  \/ (exists message log,
        handleSubmit w st =
          (Return,
           (setIsLoading false (abort_state message (started st)), log)))
  \/ (exists message log,
        handleSubmit w st =
          (Normal tt,
           (setIsLoading false
              (setResponse []
                 (setError (Some (shown_message message)) (started st))),
            log))).
Proof.
  rewrite handleSubmit_cases. cbv zeta. fold (started st).
  destruct (dispatch_uniform w (mode st) (code st) (userInput st)
              (language st) [] (started st) (started st))
    as (_ & _ & [(Hn & Hs & _)|(Hr & message & Hs & _)]);
    destruct (dispatch w (mode st) (code st) (userInput st) (language st)
                (started st, []))
      as [[locals| |message'] [s' log]]; cbn [fst snd] in *; subst.
  - left. exists locals, log. split; reflexivity.
  - contradiction.
  - right. right. exists message', log. reflexivity.
  - discriminate Hr.
  - right. left. exists message, log. reflexivity.
  - discriminate Hr.
Qed.

Lemma handleSubmit_frame (w : World) (st : AssistantState) :
  isLoading (state_after w st) = false /\
  mode (state_after w st) = mode st /\
  language (state_after w st) = language st /\
  code (state_after w st) = code st /\
  userInput (state_after w st) = userInput st.
Proof.
  unfold state_after.
  destruct (handleSubmit_ends w st)
    as [(locals & log & _ & ->)|[(message & log & ->)|(message & log & ->)]];
    repeat split.
Qed.

(** X7: whatever the world answers, [handleSubmit] ends with the loading
    flag cleared and with the mode, the language and the two inputs as they
    were. *)
Theorem handleSubmit_ends_idle_inputs_kept (w : World) (st : AssistantState) :
  isLoading (state_after w st) = false /\
  mode (state_after w st) = mode st /\
  language (state_after w st) = language st /\
  code (state_after w st) = code st /\
  userInput (state_after w st) = userInput st.
Proof. apply handleSubmit_frame. Qed.

(** X8: an error and a result never show together.  After [handleSubmit],
    when an error is set the response and the snapshot are empty; and a
    snapshot that is not empty means no error, a mode that retains the code,
    and the submitted code as snapshot. *)
Theorem error_excludes_result (w : World) (st : AssistantState) :
  (error (state_after w st) <> None ->
   response (state_after w st) = []
   /\ originalCodeForDiff (state_after w st) = []) /\
  (originalCodeForDiff (state_after w st) <> [] ->
   error (state_after w st) = None
   /\ retainsOriginalCode (mode st) = true
   /\ originalCodeForDiff (state_after w st) = code st).
Proof.
  unfold state_after.
  destruct (handleSubmit_ends w st)
    as [(locals & log & D & ->)|[(message & log & ->)|(message & log & ->)]];
    cbn; split; try (intros _; split; reflexivity);
    try (intros F; exfalso; apply F; reflexivity).
  apply dispatch_normal in D as (Hl & Hne & _). rewrite Hl.
  destruct (retainsOriginalCode (mode st)).
  - intros _. repeat split.
  - intros F. exfalso. apply F. reflexivity.
Qed.

Lemma service_outcome (w : World) (st : AssistantState) :
  mode st <> ANALYZE_REPO ->
  required_input_missing st = false ->
  calls_of w st = [mode_call st] /\
  match service w [] (mode_call st) with
  | Resolved text =>
      response (state_after w st) = text
      /\ error (state_after w st) = None
      /\ originalCodeForDiff (state_after w st)
           = (if retainsOriginalCode (mode st) then code st else [])
  | Rejected message =>
      response (state_after w st) = []
      /\ error (state_after w st) = Some (shown_message message)
      /\ originalCodeForDiff (state_after w st) = []
  end.
Proof.
  destruct st as [m l c u r i e o]. unfold required_input_missing.
  cbn [mode code userInput language]. intros Hm Hv.
  unfold calls_of, state_after, handleSubmit, handleSubmit_body, mode_call,
    try_finally, shown_message.
  cbn [mode code userInput language].
  destruct m; try contradiction; cbn [dispatch retainsOriginalCode];
    rewrite Hv; run_paths; repeat split.
Qed.

(** X9: outside ANALYZE_REPO a dispatch that passes validation makes
    exactly one call: the service of the mode with the inputs of the state.
    Its text becomes the response, with no error and the snapshot of the
    mode; its rejection becomes the error (the thrown message, or the
    fallback message when that is empty), with no response and no
    snapshot. *)
Theorem one_service_call (w : World) (st : AssistantState) :
  mode st <> ANALYZE_REPO ->
  required_input_missing st = false ->
  calls_of w st = [mode_call st] /\
  match service w [] (mode_call st) with
  | Resolved text =>
      response (state_after w st) = text
      /\ error (state_after w st) = None
      /\ originalCodeForDiff (state_after w st)
           = (if retainsOriginalCode (mode st) then code st else [])
  | Rejected message =>
      response (state_after w st) = []
      /\ error (state_after w st) = Some (shown_message message)
      /\ originalCodeForDiff (state_after w st) = []
  end.
Proof. apply service_outcome. Qed.

Lemma one_service_call_witness :
  REFACTOR <> ANALYZE_REPO /\
  required_input_missing (sample_state REFACTOR (js "def f(): pass") []) = false /\
  calls_of sample_world (sample_state REFACTOR (js "def f(): pass") [])
    = [refactorCode (js "def f(): pass") Python].
Proof.
  split; [discriminate|]. split; [reflexivity|].
  exact (proj1 (one_service_call sample_world
                  (sample_state REFACTOR (js "def f(): pass") [])
                  ltac:(discriminate) eq_refl)).
Defined.

(** X10: the summarising service is never called without the README.  A
    call of [analyzeRepo] on a text means: the mode is ANALYZE_REPO, the
    repository pattern was found in the URL, the metadata request and the
    content request both answered ok, the text is the body of the second
    answer, and these three calls are all the calls, in this order. *)
Theorem summary_only_after_both_fetches (w : World) (st : AssistantState)
    (text : str) :
  In (analyzeRepo text) (calls_of w st) ->
  exists owner repo status status' download_url,
    mode st = ANALYZE_REPO /\
    github_search (userInput st) = Some (owner, repo) /\
    network w [] (readme_url owner repo)
      = FetchResponse true status (Resolved download_url) /\
    network w [fetch (readme_url owner repo)] download_url
      = FetchResponse true status' (Resolved text) /\
    calls_of w st =
      [fetch (readme_url owner repo); fetch download_url; analyzeRepo text].
Proof.
  destruct st as [m l c u r i e o].
  unfold calls_of, state_after, handleSubmit, handleSubmit_body, try_finally.
  cbn [mode code userInput language].
  destruct m; cbn [dispatch]; run_paths; cbn [app In]; intros H;
    repeat match goal with
           | H : _ \/ _ |- _ => destruct H as [H|H]
           | H : False |- _ => contradiction
           | H : _ = analyzeRepo _ |- _ => first [discriminate H | injection H as ->]
           end.
  all: repeat match goal with
              | H : negb ?b = false |- _ => destruct b; [clear H | discriminate H]
              end.
  all: repeat eexists; eassumption.
Qed.

Lemma summary_only_after_both_fetches_witness :
  In (analyzeRepo (js "README"))
     (calls_of sample_world
        (sample_state ANALYZE_REPO [] (js "https://github.com/owner/repo.git")))
  /\ exists owner repo status status' download_url,
       mode (sample_state ANALYZE_REPO []
               (js "https://github.com/owner/repo.git")) = ANALYZE_REPO /\
       github_search
         (userInput (sample_state ANALYZE_REPO []
                       (js "https://github.com/owner/repo.git")))
         = Some (owner, repo) /\
       network sample_world [] (readme_url owner repo)
         = FetchResponse true status (Resolved download_url) /\
       network sample_world [fetch (readme_url owner repo)] download_url
         = FetchResponse true status' (Resolved (js "README")) /\
       calls_of sample_world
         (sample_state ANALYZE_REPO [] (js "https://github.com/owner/repo.git"))
       = [fetch (readme_url owner repo); fetch download_url;
          analyzeRepo (js "README")].
Proof.
  assert (H : In (analyzeRepo (js "README"))
     (calls_of sample_world
        (sample_state ANALYZE_REPO [] (js "https://github.com/owner/repo.git"))))
    by (vm_compute; tauto).
  exact (conj H (summary_only_after_both_fetches sample_world _ _ H)).
Defined.

Ltac unfold_submit :=
  unfold calls_of, state_after, completion_of, handleSubmit,
    handleSubmit_body, try_finally;
  cbn [mode code userInput language dispatch];
  unfold abort, await_body, await_call, await_fetch, try_catch, bind, update,
    early_return, throw, ret;
  cbv beta iota zeta delta [fst snd].

Lemma github_search_nil : github_search [] = None.
Proof. reflexivity. Qed.

(** X11: in ANALYZE_REPO a fetch that fails ends the dispatch with its own
    message and no response, before the summarising service is called.  With
    the repository pattern found in the URL: a metadata answer that is not
    ok shows the message with its status after that one request; a rejected
    metadata request shows the rejection message; a content answer that is
    not ok shows the download message after the two requests. *)
Theorem fetch_failure_aborts (w : World) (st : AssistantState)
    (owner repo : str) :
  mode st = ANALYZE_REPO ->
  github_search (userInput st) = Some (owner, repo) ->
  let url := readme_url owner repo in
  (forall status body,
     network w [] url = FetchResponse false status body ->
     calls_of w st = [fetch url]
     /\ error (state_after w st) = Some (metadata_failure status)
     /\ response (state_after w st) = []
     /\ completion_of w st = Return) /\
  (forall message,
     network w [] url = FetchRejected message ->
     calls_of w st = [fetch url]
     /\ error (state_after w st) = Some message
     /\ response (state_after w st) = []
     /\ completion_of w st = Return) /\
  (forall status download_url status' body,
     network w [] url = FetchResponse true status (Resolved download_url) ->
     network w [fetch url] download_url = FetchResponse false status' body ->
     calls_of w st = [fetch url; fetch download_url]
     /\ error (state_after w st)
          = Some (js "Failed to download README content.")
     /\ response (state_after w st) = []
     /\ completion_of w st = Return).
Proof.
  destruct st as [m l c u r i e o]. cbn [mode userInput].
  intros -> Hs. cbv zeta.
  destruct u as [|x u]; [rewrite github_search_nil in Hs; discriminate Hs|].
  repeat split; unfold_submit; cbn [truthy negb]; rewrite Hs;
    cbv beta iota zeta delta [fst snd];
    repeat match goal with
           | H : network _ _ _ = _ |- _ =>
               rewrite H; cbv beta iota zeta delta [fst snd negb app]; clear H
           end;
    reflexivity.
Qed.

Lemma fetch_failure_aborts_witness :
  mode (sample_state ANALYZE_REPO [] (js "https://github.com/owner/repo"))
    = ANALYZE_REPO /\
  github_search (js "https://github.com/owner/repo")
    = Some (js "owner", js "repo") /\
  error (state_after offline_world
           (sample_state ANALYZE_REPO [] (js "https://github.com/owner/repo")))
    = Some (js "Failed to fetch repo metadata (status: 404). Check URL or API rate limits.").
Proof.
  split; [reflexivity|]. split; [reflexivity|].
  exact (proj1 (proj2 (proj1
    (fetch_failure_aborts offline_world
       (sample_state ANALYZE_REPO [] (js "https://github.com/owner/repo"))
       (js "owner") (js "repo") eq_refl eq_refl)
    404 (Resolved []) eq_refl))).
Defined.

Ltac explore :=
  repeat (match goal with
          | |- context [match ?x with _ => _ end] =>
              lazymatch x with
              | context [match _ with _ => _ end] => fail
              | _ => destruct x eqn:?
              end
          end; cbv beta iota zeta delta [fst snd]).

(** X12: a dispatch reads only the inputs its mode shows.  Two states with
    the same mode and language that agree on the input cells
    [renderInputFields] binds in that mode make the same calls and end the
    same way, with the same response, error and snapshot, whatever the
    hidden cell and the earlier results hold. *)
Theorem outcome_reads_shown_inputs (w : World) (st st' : AssistantState) :
  mode st' = mode st ->
  language st' = language st ->
  (shows CodeField (mode st) = true -> code st' = code st) ->
  (shows UserInputField (mode st) = true -> userInput st' = userInput st) ->
  calls_of w st' = calls_of w st /\
  completion_of w st' = completion_of w st /\
  response (state_after w st') = response (state_after w st) /\
  error (state_after w st') = error (state_after w st) /\
  originalCodeForDiff (state_after w st')
    = originalCodeForDiff (state_after w st).
Proof.
  destruct st as [m l c u r i e o], st' as [m' l' c' u' r' i' e' o'].
  cbn [mode language code userInput]. intros -> -> Hc Hu.
  destruct m; cbn in Hc, Hu;
    try specialize (Hc eq_refl); try specialize (Hu eq_refl); subst;
    repeat split; unfold_submit; explore; reflexivity.
Qed.

Lemma outcome_reads_shown_inputs_witness :
  shows CodeField GENERATE = false /\
  calls_of sample_world
    {| mode := GENERATE; language := Python; code := js "left over";
       userInput := js "a queue"; response := []; isLoading := true;
       error := None; originalCodeForDiff := [] |}
  = calls_of sample_world (sample_state GENERATE [] (js "a queue")).
Proof.
  split; [reflexivity|].
  exact (proj1 (outcome_reads_shown_inputs sample_world
    (sample_state GENERATE [] (js "a queue"))
    {| mode := GENERATE; language := Python; code := js "left over";
       userInput := js "a queue"; response := []; isLoading := true;
       error := None; originalCodeForDiff := [] |}
    eq_refl eq_refl (fun H => False_ind _ (Bool.diff_false_true H))
    (fun _ => eq_refl))).
Defined.

(** X13: after a click on a mode button a submit cannot reach the outside.
    Whatever the state before the click and the mode chosen, the dispatch
    that follows makes no call and returns early with a validation message
    of the chosen mode: the inputs have to be entered again. *)
Theorem switch_then_submit_aborts (w : World) (value : AiMode)
    (st : AssistantState) :
  calls_of w (ModeButton_onClick value st) = [] /\
  completion_of w (ModeButton_onClick value st) = Return /\
  exists message,
    error (state_after w (ModeButton_onClick value st)) = Some message
    /\ In message (validation_messages value).
Proof.
  assert (H : required_input_missing (ModeButton_onClick value st) = true)
    by (destruct value; reflexivity).
  unfold calls_of, completion_of, state_after.
  rewrite handleSubmit_cases. cbv zeta.
  destruct (dispatch_missing w (ModeButton_onClick value st)
              (setOriginalCodeForDiff []
                 (setError None
                    (setResponse []
                       (setIsLoading true (ModeButton_onClick value st))))) H)
    as (message & Hin & ->).
  cbn [fst snd]. repeat split. exists message. split; [reflexivity | exact Hin].
Qed.

(** ** The repository URL *)

Lemma github_search_eq (s : str) :
  github_search s =
    match github_match s with
    | Some m => Some m
    | None => match s with
              | [] => None
              | _ :: s' => github_search s'
              end
    end.
Proof. destruct s; reflexivity. Qed.

Lemma not_slash_false (c : ascii) : not_slash c = false -> c = "/"%char.
Proof.
  unfold not_slash. intros H. apply negb_false_iff in H.
  apply ascii_eqb_true. exact H.
Qed.

Lemma dropWhile_ends_segment (s : str) :
  ends_segment (dropWhile not_slash s) = true.
Proof.
  destruct (dropWhile not_slash s) as [|c r] eqn:E; [reflexivity|].
  apply dropWhile_head in E. apply not_slash_false in E. subst c. reflexivity.
Qed.

Lemma github_match_sound (s owner repo : str) :
  github_match s = Some (owner, repo) ->
  owner <> [] /\ repo <> [] /\
  forallb not_slash owner = true /\ forallb not_slash repo = true /\
  exists post,
    s = js "github.com/" ++ owner ++ js "/" ++ repo ++ post
    /\ ends_segment post = true.
Proof.
  unfold github_match.
  destruct (startsWith (js "github.com/") s) eqn:E; [|discriminate].
  apply startsWith_true in E. change (length (js "github.com/")) with 11 in E.
  set (r := skipn 11 s) in *.
  pose proof (takeWhile_dropWhile not_slash r) as Hr.
  pose proof (forallb_takeWhile not_slash r) as Fo.
  destruct (takeWhile not_slash r) as [|a o] eqn:To; [discriminate|].
  destruct (dropWhile not_slash r) as [|x r2] eqn:Dr; [discriminate|].
  pose proof (takeWhile_dropWhile not_slash r2) as Hr2.
  pose proof (forallb_takeWhile not_slash r2) as Fr.
  pose proof (dropWhile_ends_segment r2) as Hp.
  destruct (takeWhile not_slash r2) as [|b p] eqn:Tr; [discriminate|].
  intros H. injection H as <- <-.
  apply dropWhile_head in Dr. apply not_slash_false in Dr. subst x.
  repeat split; try discriminate; try assumption.
  exists (dropWhile not_slash r2). split; [|exact Hp].
  rewrite E at 1. rewrite <- Hr. rewrite <- Hr2 at 1.
  reflexivity.
Qed.

(** X14: what [github_search] finds is in the URL.  The owner and the
    repository it returns are not empty and hold no slash, and the URL reads
    "github.com/", the owner, a slash, the repository, and then ends or goes
    on with a slash. *)
Theorem github_search_sound (s owner repo : str) :
  github_search s = Some (owner, repo) ->
  owner <> [] /\ repo <> [] /\
  forallb not_slash owner = true /\ forallb not_slash repo = true /\
  exists pre post,
    s = pre ++ js "github.com/" ++ owner ++ js "/" ++ repo ++ post
    /\ ends_segment post = true.
Proof.
  induction s as [|c s IH]; rewrite github_search_eq.
  - discriminate.
  - destruct (github_match (c :: s)) as [[o r]|] eqn:M.
    + intros H. injection H as <- <-.
      destruct (github_match_sound (c :: s) o r M)
        as (Ho & Hr & Fo & Fr & post & Hs & Hp).
      repeat split; try assumption. exists [], post. split; assumption.
    + intros H. destruct (IH H) as (Ho & Hr & Fo & Fr & pre & post & Hs & Hp).
      repeat split; try assumption. exists (c :: pre), post.
      split; [rewrite Hs; reflexivity | exact Hp].
Qed.

Lemma github_search_sound_witness :
  github_search (js "see https://github.com/owner/repo/tree/main")
    = Some (js "owner", js "repo") /\
  js "repo" <> [].
Proof.
  split; [reflexivity|].
  exact (proj1 (proj2 (github_search_sound
    (js "see https://github.com/owner/repo/tree/main") (js "owner") (js "repo")
    eq_refl))).
Defined.

Lemma github_match_cons (c : ascii) (s : str) :
  not_g c = true -> github_match (c :: s) = None.
Proof.
  intros H. unfold github_match.
  change (startsWith (js "github.com/") (c :: s))
    with (ascii_eqb "g"%char c && startsWith (js "ithub.com/") s).
  unfold not_g, ascii_eqb in *. rewrite Ascii.eqb_sym.
  apply negb_true_iff in H. rewrite H. reflexivity.
Qed.

Lemma takeWhile_segment (r post : str) :
  forallb not_slash r = true -> ends_segment post = true ->
  takeWhile not_slash (r ++ post) = r.
Proof.
  intros Hr Hp. destruct post as [|c post].
  - rewrite app_nil_r. apply takeWhile_all. exact Hr.
  - simpl in Hp. apply ascii_eqb_true in Hp. subst c.
    rewrite takeWhile_app_stop by reflexivity. apply takeWhile_all. exact Hr.
Qed.

Lemma github_match_built (owner repo post : str) :
  owner <> [] -> repo <> [] ->
  forallb not_slash owner = true -> forallb not_slash repo = true ->
  ends_segment post = true ->
  github_match (js "github.com/" ++ owner ++ js "/" ++ repo ++ post)
    = Some (owner, repo).
Proof.
  intros Ho Hr Fo Fr Hp. unfold github_match.
  rewrite startsWith_app.
  change (skipn 11 (js "github.com/" ++ owner ++ js "/" ++ repo ++ post))
    with (owner ++ "/"%char :: repo ++ post).
  rewrite takeWhile_app_stop by reflexivity.
  rewrite dropWhile_app_stop by reflexivity.
  rewrite (takeWhile_all not_slash owner Fo), (dropWhile_all not_slash owner Fo).
  cbn [app]. rewrite (takeWhile_segment repo post Fr Hp).
  destruct owner; [contradiction|]. destruct repo; [contradiction|].
  reflexivity.
Qed.

Lemma github_search_built (pre owner repo post : str) :
  forallb not_g pre = true ->
  owner <> [] -> repo <> [] ->
  forallb not_slash owner = true -> forallb not_slash repo = true ->
  ends_segment post = true ->
  github_search (pre ++ js "github.com/" ++ owner ++ js "/" ++ repo ++ post)
    = Some (owner, repo).
Proof.
  intros Hpre Ho Hr Fo Fr Hp. induction pre as [|c pre IH].
  - cbn [app]. rewrite github_search_eq.
    rewrite (github_match_built owner repo post Ho Hr Fo Fr Hp). reflexivity.
  - simpl in Hpre. apply andb_prop in Hpre as [Hc Hpre].
    change ((c :: pre) ++ js "github.com/" ++ owner ++ js "/" ++ repo ++ post)
      with (c :: (pre ++ js "github.com/" ++ owner ++ js "/" ++ repo ++ post)).
    rewrite github_search_eq, (github_match_cons c _ Hc). apply IH. exact Hpre.
Qed.

(** X15: a repository URL built from an owner and a repository is read back
    as that pair, and the dispatch asks for the README of that repository.
    For a prefix without the letter g (such as "https://"), an owner and a
    repository that are not empty and hold no slash, and a rest that is
    empty or begins with a slash: [github_search] returns the pair, and in
    ANALYZE_REPO the first call is the metadata request for it. *)
Theorem repository_url_round_trip (w : World) (st : AssistantState)
    (pre owner repo post : str) :
  forallb not_g pre = true ->
  owner <> [] -> repo <> [] ->
  forallb not_slash owner = true -> forallb not_slash repo = true ->
  ends_segment post = true ->
  let url := pre ++ js "github.com/" ++ owner ++ js "/" ++ repo ++ post in
  github_search url = Some (owner, repo) /\
  (mode st = ANALYZE_REPO -> userInput st = url ->
   exists later, calls_of w st = fetch (readme_url owner repo) :: later).
Proof.
  intros Hpre Ho Hr Fo Fr Hp url.
  pose proof (github_search_built pre owner repo post Hpre Ho Hr Fo Fr Hp) as G.
  fold url in G. split; [exact G|].
  destruct st as [m l c u r i e o]. cbn [mode userInput]. intros -> ->.
  unfold_submit.
  destruct url as [|x url']; [rewrite github_search_nil in G; discriminate G|].
  cbn [truthy negb]. rewrite G. explore; eexists; reflexivity.
Qed.

Lemma repository_url_round_trip_witness :
  forallb not_g (js "https://") = true /\
  forallb not_slash (js "rocq-prover") = true /\
  forallb not_slash (js "rocq.git") = true /\
  github_search (js "https://github.com/rocq-prover/rocq.git")
    = Some (js "rocq-prover", js "rocq.git").
Proof.
  split; [reflexivity|]. split; [reflexivity|]. split; [reflexivity|].
  exact (proj1 (repository_url_round_trip sample_world
    (sample_state ANALYZE_REPO [] []) (js "https://") (js "rocq-prover")
    (js "rocq.git") [] eq_refl ltac:(discriminate) ltac:(discriminate)
    eq_refl eq_refl eq_refl)).
Defined.

(** ** From the dispatch to the diff *)

Lemma parts_single_block (inner : str) :
  lazy_to_fence (inner ++ fence) = Some (length inner + 3) ->
  parts (fence ++ inner ++ fence) = [fence ++ inner ++ fence].
Proof.
  intros H. pose proof (parts_text_block [] inner [] eq_refl H) as P.
  rewrite app_nil_r in P. exact P.
Qed.

Lemma single_block_diff (w : World) (st : AssistantState) (inner : str) :
  retainsOriginalCode (mode st) = true ->
  required_input_missing st = false ->
  lazy_to_fence (inner ++ fence) = Some (length inner + 3) ->
  service w [] (mode_call st) = Resolved (fence ++ inner ++ fence) ->
  response_view (state_after w st) =
    [CodeComparison (code st) (code_body (fence ++ inner ++ fence))
       (language st)].
Proof.
  intros Hret Hv Hin Hs.
  assert (Hm : mode st <> ANALYZE_REPO)
    by (intros E; rewrite E in Hret; discriminate Hret).
  destruct (service_outcome w st Hm Hv) as [_ Hout].
  rewrite Hs, Hret in Hout. destruct Hout as (Hr & _ & Ho).
  destruct (handleSubmit_frame w st) as (_ & _ & Hl & _ & _).
  unfold response_view, MarkdownResponse. rewrite Hr, Ho, Hl.
  rewrite (parts_single_block inner Hin).
  assert (Hc : code st <> []).
  { intros E. unfold required_input_missing in Hv. rewrite E in Hv.
    destruct (mode st); try discriminate Hret; discriminate Hv. }
  destruct (code st) as [|c o]; [contradiction|].
  cbn [render_parts]. rewrite isCodeBlock_fence.
  reflexivity.
Qed.

(** X16: in a mode that retains the code, a response that is one fenced
    block is shown as the diff of the submitted code against the code of
    the block.  When validation passes and the service answers with a
    fence, a first line that is a run of letters (possibly empty) and a
    newline, text without an earlier closing fence, and a fence, the
    response pane holds exactly one element: the comparison of the code of
    the state with the text after that first line, trimmed, in the language
    selected. *)
Theorem single_block_shown_as_diff (w : World) (st : AssistantState)
    (letters text : str) :
  retainsOriginalCode (mode st) = true ->
  required_input_missing st = false ->
  forallb is_letter letters = true ->
  lazy_to_fence ((letters ++ "010"%char :: text) ++ fence)
    = Some (length (letters ++ "010"%char :: text) + 3) ->
  service w [] (mode_call st)
    = Resolved (fence ++ (letters ++ "010"%char :: text) ++ fence) ->
  response_view (state_after w st) =
    [CodeComparison (code st) (trim text) (language st)].
Proof.
  intros Hret Hv Hl Hin Hs.
  rewrite (single_block_diff w st _ Hret Hv Hin Hs).
  rewrite code_body_fenced, (after_tag_line letters text Hl). reflexivity.
Qed.

(** Scenario 3 of the specification. *)
Lemma single_block_shown_as_diff_witness :
  retainsOriginalCode REFACTOR = true /\
  required_input_missing (sample_state REFACTOR (js "def f(): pass") [])
    = false /\
  forallb is_letter (js "python") = true /\
  response_view
    (state_after sample_world (sample_state REFACTOR (js "def f(): pass") []))
  = [CodeComparison (js "def f(): pass") (js "def f():
    return None") Python].
Proof.
  split; [reflexivity|]. split; [reflexivity|]. split; [reflexivity|].
  exact (single_block_shown_as_diff sample_world
           (sample_state REFACTOR (js "def f(): pass") []) (js "python")
           (js "def f():
    return None
") eq_refl eq_refl eq_refl eq_refl eq_refl).
Defined.

(** ** Nothing is shown that the response does not hold *)

Lemma occurs_refl (s : str) : occurs_in s s.
Proof. exists [], []. rewrite app_nil_r. reflexivity. Qed.

Lemma occurs_trans (t u s : str) :
  occurs_in t u -> occurs_in u s -> occurs_in t s.
Proof.
  intros (a & b & ->) (a' & b' & ->). exists (a' ++ a), (b ++ b').
  rewrite <- !app_assoc. reflexivity.
Qed.

Lemma occurs_suffix (a t : str) : occurs_in t (a ++ t).
Proof. exists a, []. rewrite app_nil_r. reflexivity. Qed.

Lemma occurs_prefix (t b : str) : occurs_in t (t ++ b).
Proof. exists [], b. reflexivity. Qed.

Lemma occurs_skipn (k : nat) (s : str) : occurs_in (skipn k s) s.
Proof. rewrite <- (firstn_skipn k s) at 2. apply occurs_suffix. Qed.

Lemma occurs_firstn (k : nat) (s : str) : occurs_in (firstn k s) s.
Proof. rewrite <- (firstn_skipn k s) at 2. apply occurs_prefix. Qed.

Lemma occurs_dropWhile (f : ascii -> bool) (s : str) :
  occurs_in (dropWhile f s) s.
Proof. rewrite <- (takeWhile_dropWhile f s) at 2. apply occurs_suffix. Qed.

Lemma occurs_trim (s : str) : occurs_in (trim s) s.
Proof.
  unfold trim, trimEnd, trimStart.
  apply occurs_trans with (dropWhile is_space s); [|apply occurs_dropWhile].
  generalize (dropWhile is_space s). intros u.
  pose proof (takeWhile_dropWhile is_space (rev u)) as H.
  apply (f_equal (@rev ascii)) in H.
  rewrite rev_app_distr, rev_involutive in H. rewrite <- H at 2.
  apply occurs_prefix.
Qed.

Lemma occurs_concat (p : str) (l : list str) :
  In p l -> occurs_in p (concat l).
Proof.
  intros H. apply in_split in H as (l1 & l2 & ->).
  exists (concat l1), (concat l2). rewrite concat_app. reflexivity.
Qed.

Lemma occurs_split_loop (re : str -> option nat) (fuel : nat) (cur s p : str) :
  In p (split_loop re fuel cur s) -> occurs_in p (cur ++ s).
Proof.
  intros H. rewrite <- (split_loop_concat re fuel cur s).
  apply occurs_concat. exact H.
Qed.

Lemma occurs_parts (content p : str) :
  In p (parts content) -> occurs_in p content.
Proof.
  intros H. unfold parts in H. apply filter_In in H as [H _].
  exact (occurs_split_loop fence_match _ [] content p H).
Qed.

Lemma occurs_split_lines (cur s line : str) :
  In line (split_lines_from cur s) -> occurs_in line (cur ++ s).
Proof.
  revert cur; induction s as [|c s IH]; intros cur; simpl.
  - intros [<-|[]]. rewrite app_nil_r. apply occurs_refl.
  - destruct (ascii_eqb c "010"%char).
    + intros [<-|H]; [apply occurs_prefix|].
      apply IH in H. simpl in H.
      apply occurs_trans with s; [exact H|].
      exists (cur ++ [c]), []. rewrite app_nil_r, <- app_assoc. reflexivity.
    + intros H. apply IH in H. rewrite <- app_assoc in H. exact H.
Qed.

Lemma occurs_strip_opening (p : str) : occurs_in (strip_opening p) p.
Proof.
  unfold strip_opening. destruct (startsWith fence p); [|apply occurs_refl].
  apply occurs_trans with (dropWhile is_letter (skipn 3 p)).
  - destruct (dropWhile is_letter (skipn 3 p)) as [|c r];
      [apply occurs_refl|].
    destruct (ascii_eqb c "010"%char); [|apply occurs_refl].
    exact (occurs_suffix [c] r).
  - apply occurs_trans with (skipn 3 p);
      [apply occurs_dropWhile | apply occurs_skipn].
Qed.

Lemma occurs_code_body (p : str) : occurs_in (code_body p) p.
Proof.
  unfold code_body.
  apply occurs_trans with (strip_closing (strip_opening p));
    [apply occurs_trim|].
  apply occurs_trans with (strip_opening p); [|apply occurs_strip_opening].
  unfold strip_closing. destruct (endsWith fence (strip_opening p));
    [apply occurs_firstn | apply occurs_refl].
Qed.

Lemma occurs_shown_items (lines : list str) (t : str) :
  In t (shown_items (map list_child lines)) ->
  exists line, In line lines /\ occurs_in t line.
Proof.
  induction lines as [|line lines IH]; cbn [map shown_items];
    [contradiction|].
  unfold list_child at 1. destruct (starts_marker (trim line));
    cbn [shown_items].
  - intros [E|H].
    + exists line. split; [left; reflexivity|]. rewrite <- E.
      apply occurs_trans with (trim line);
        [unfold substring; apply occurs_skipn | apply occurs_trim].
    + destruct (IH H) as (x & Hx & Ho). exists x. split; [right|]; assumption.
  - intros H. destruct (IH H) as (x & Hx & Ho).
    exists x. split; [right|]; assumption.
Qed.

Lemma occurs_render_text (text t : str) :
  In t (inline_texts (render_text text)) -> occurs_in t text.
Proof.
  unfold render_text.
  destruct (startsWith stars text && endsWith stars text).
  - intros [<-|[]]. unfold slice_2_m2.
    apply occurs_trans with (skipn 2 text);
      [apply occurs_firstn | apply occurs_skipn].
  - destruct (starts_marker (trim text)).
    + cbn [inline_texts]. intros H.
      apply occurs_shown_items in H as (line & Hl & Ho).
      apply occurs_trans with line; [exact Ho|].
      apply occurs_trans with (trim text); [|apply occurs_trim].
      exact (occurs_split_lines [] (trim text) line Hl).
    + intros [<-|[]]. apply occurs_refl.
Qed.

Lemma occurs_render_plain (p t : str) :
  In t (element_texts (render_plain p)) -> occurs_in t p.
Proof.
  unfold render_plain, render_prose. destruct (isCodeBlock p).
  - intros [<-|[]]. apply occurs_code_body.
  - cbn [element_texts]. intros H. apply in_flat_map in H as (i & Hi & Ht).
    apply in_map_iff in Hi as (piece & <- & Hp).
    apply occurs_trans with piece; [apply occurs_render_text; exact Ht|].
    exact (occurs_split_loop bold_match _ [] p piece Hp).
Qed.

(** X17: the rendering shows nothing the response does not hold.  Every
    text of the rendered tree (the body of a code block, the new side of a
    diff, a bold span, a list item, a span) is a run of consecutive
    characters of the response. *)
Theorem rendered_text_from_response (content : str)
    (originalCode : option str) (language : option Language) (t : str) :
  In t (flat_map element_texts (MarkdownResponse content originalCode language)) ->
  occurs_in t content.
Proof.
  intros H. apply in_flat_map in H as (e & He & Ht).
  apply In_nth_error in He as [i He].
  unfold MarkdownResponse in He.
  assert (Hi : i < length (parts content)).
  { rewrite <- (render_parts_length originalCode language false).
    apply nth_error_Some. rewrite He. discriminate. }
  destruct (nth_error (parts content) i) as [p|] eqn:Hp;
    [|apply nth_error_None in Hp; lia].
  apply occurs_trans with p;
    [|apply occurs_parts; eapply nth_error_In; exact Hp].
  destruct (element_shape _ _ _ _ _ _ _ He Hp)
    as [->|(c & l & _ & _ & _ & _ & ->)].
  - apply occurs_render_plain. exact Ht.
  - destruct Ht as [<-|[]]. apply occurs_code_body.
Qed.

Lemma rendered_text_from_response_witness :
  In (js "item two")
     (flat_map element_texts (MarkdownResponse scenario_list None None)) /\
  occurs_in (js "item two") scenario_list.
Proof.
  assert (H : In (js "item two")
     (flat_map element_texts (MarkdownResponse scenario_list None None)))
    by (vm_compute; tauto).
  exact (conj H (rendered_text_from_response scenario_list None None
                   (js "item two") H)).
Defined.

(** ** Tested patterns *)

Lemma lang_seq_inv (r1 r2 : regex) (s : str) :
  lang (Seq r1 r2) s ->
  exists s1 s2, s = s1 ++ s2 /\ lang r1 s1 /\ lang r2 s2.
Proof. intros H. inversion H; subst. eauto. Qed.

Lemma lang_or_inv (r1 r2 : regex) (s : str) :
  lang (Or r1 r2) s -> lang r1 s \/ lang r2 s.
Proof. intros H. inversion H; subst; auto. Qed.

Lemma lang_class_inv (f : ascii -> bool) (s : str) :
  lang (Class f) s -> exists c, s = [c] /\ f c = true.
Proof. intros H. inversion H; subst. eauto. Qed.

Lemma lang_empty_inv (s : str) : lang Empty_word s -> s = [].
Proof. intros H. inversion H. reflexivity. Qed.

Lemma lang_never_inv (s : str) : lang Never s -> False.
Proof. intros H. inversion H. Qed.

Lemma nullable_lang (r : regex) : nullable r = true <-> lang r [].
Proof.
  induction r as [| |f|r1 IH1 r2 IH2|r1 IH1 r2 IH2|r IH]; simpl; split;
    intros H; try discriminate.
  - apply lang_never_inv in H. contradiction.
  - constructor.
  - reflexivity.
  - apply lang_class_inv in H as (c & E & _). discriminate E.
  - apply andb_prop in H as [H1 H2].
    apply (lang_seq r1 r2 [] []); [apply IH1 | apply IH2]; assumption.
  - apply lang_seq_inv in H as (s1 & s2 & E & L1 & L2).
    symmetry in E. apply app_eq_nil in E as [-> ->].
    apply andb_true_intro. split; [apply IH1 | apply IH2]; assumption.
  - apply orb_prop in H as [H|H];
      [apply lang_or_l, IH1 | apply lang_or_r, IH2]; exact H.
  - apply orb_true_intro.
    apply lang_or_inv in H as [H|H];
      [left; apply IH1 | right; apply IH2]; assumption.
  - constructor.
  - reflexivity.
Qed.

Lemma derive_sound (c : ascii) (r : regex) (s : str) :
  lang (derive c r) s -> lang r (c :: s).
Proof.
  revert s; induction r as [| |f|r1 IH1 r2 IH2|r1 IH1 r2 IH2|r IH];
    intros s H; simpl in H.
  - apply lang_never_inv in H. contradiction.
  - apply lang_never_inv in H. contradiction.
  - destruct (f c) eqn:E.
    + apply lang_empty_inv in H. subst s. constructor. exact E.
    + apply lang_never_inv in H. contradiction.
  - assert (W : forall t, lang (Seq (derive c r1) r2) t ->
                          lang (Seq r1 r2) (c :: t)).
    { intros t L. apply lang_seq_inv in L as (s1 & s2 & -> & L1 & L2).
      apply (lang_seq r1 r2 (c :: s1) s2); [apply IH1; exact L1 | exact L2]. }
    destruct (nullable r1) eqn:N; [|apply W; exact H].
    apply lang_or_inv in H as [H|H]; [apply W; exact H|].
    apply (lang_seq r1 r2 [] (c :: s));
      [apply nullable_lang; exact N | apply IH2; exact H].
  - apply lang_or_inv in H as [H|H];
      [apply lang_or_l, IH1 | apply lang_or_r, IH2]; exact H.
  - apply lang_seq_inv in H as (s1 & s2 & -> & L1 & L2).
    apply (lang_many_app r (c :: s1) s2); [apply IH; exact L1 | exact L2].
Qed.

Lemma derive_complete (c : ascii) (r : regex) (s : str) :
  lang r (c :: s) -> lang (derive c r) s.
Proof.
  intros H. remember (c :: s) as t eqn:E. revert c s E.
  induction H as [|f x Hf|r1 r2 s1 s2 H1 IH1 H2 IH2|r1 r2 t H IH|r1 r2 t H IH
                 |r|r s1 s2 H1 IH1 H2 IH2]; intros c s E.
  - discriminate E.
  - injection E as -> <-. simpl. rewrite Hf. constructor.
  - simpl. destruct s1 as [|y s1].
    + simpl in E. subst s2.
      rewrite (proj2 (nullable_lang r1) H1). apply lang_or_r.
      apply IH2. reflexivity.
    + simpl in E. injection E as -> <-.
      assert (L : lang (Seq (derive c r1) r2) (s1 ++ s2))
        by (apply lang_seq; [apply IH1; reflexivity | exact H2]).
      destruct (nullable r1); [apply lang_or_l|]; exact L.
  - simpl. apply lang_or_l. apply IH. exact E.
  - simpl. apply lang_or_r. apply IH. exact E.
  - discriminate E.
  - destruct s1 as [|y s1].
    + simpl in E. apply IH2. exact E.
    + simpl in E. injection E as -> <-. simpl.
      apply lang_seq; [apply IH1; reflexivity | exact H2].
Qed.

(** [test] decides the words of a pattern. *)
Lemma test_lang (r : regex) (s : str) : test r s = true <-> lang r s.
Proof.
  revert r; induction s as [|c s IH]; intros r; simpl.
  - apply nullable_lang.
  - rewrite IH. split; [apply derive_sound | apply derive_complete].
Qed.

Lemma lang_min_length (r : regex) (s : str) :
  lang r s -> min_length r <= length s.
Proof.
  induction 1; simpl; try rewrite length_app; lia.
Qed.

Lemma lang_classes (P : ascii -> bool) (r : regex) (s : str) :
  classes_within P r -> lang r s -> forallb P s = true.
Proof.
  intros C H. induction H; simpl in C; try reflexivity.
  - simpl. rewrite (C c H). reflexivity.
  - destruct C as [C1 C2]. rewrite forallb_app, IHlang1, IHlang2; auto.
  - apply IHlang. tauto.
  - apply IHlang. tauto.
  - rewrite forallb_app, IHlang1, IHlang2; auto.
Qed.

Lemma lang_some_of (f : ascii -> bool) (s : str) :
  s <> [] -> forallb f s = true -> lang (some_of (Class f)) s.
Proof.
  intros Hs H. destruct s as [|c s]; [contradiction|].
  simpl in H. apply andb_prop in H as [Hc H].
  apply (lang_seq (Class f) (Many (Class f)) [c] s); [constructor; exact Hc|].
  clear Hs Hc. induction s as [|x s IH]; [constructor|].
  simpl in H. apply andb_prop in H as [Hx H].
  apply (lang_many_app (Class f) [x] s); [constructor; exact Hx | apply IH, H].
Qed.

Lemma lang_many_class (f : ascii -> bool) (s : str) :
  forallb f s = true -> lang (Many (Class f)) s.
Proof.
  induction s as [|x s IH]; intros H; [constructor|].
  simpl in H. apply andb_prop in H as [Hx H].
  apply (lang_many_app (Class f) [x] s); [constructor; exact Hx | apply IH, H].
Qed.

(** ** The sign-in form *)

(** X18: the form calls [onLogin] or [onSignup] exactly when the address
    passes [validateEmail], the password has six characters or more and, in
    the sign-up view, the confirmation equals the password; it calls
    [onLogin] only in the sign-in view and [onSignup] only in the sign-up
    view.  When it calls neither it shows an error, when it calls one it
    shows none, and it never touches the inputs.  So the application
    becomes authenticated through the form under that condition only. *)
Theorem sign_in_gate (st : Auth.State) (app : AppState) :
  let st' := fst (Auth.handleSubmit st) in
  let cb := snd (Auth.handleSubmit st) in
  (cb <> None <->
   Auth.validateEmail (Auth.email st) = true
   /\ 6 <= length (Auth.password st)
   /\ (Auth.isLoginView st = true
       \/ Auth.password st = Auth.confirmPassword st)) /\
  (cb = None <-> Auth.error st' <> None) /\
  (cb = Some Auth.onLogin -> Auth.isLoginView st = true) /\
  (cb = Some Auth.onSignup ->
   Auth.isLoginView st = false
   /\ Auth.password st = Auth.confirmPassword st) /\
  Auth.email st' = Auth.email st /\
  Auth.password st' = Auth.password st /\
  Auth.confirmPassword st' = Auth.confirmPassword st /\
  Auth.isLoginView st' = Auth.isLoginView st /\
  (isAuthenticated app = false ->
   (isAuthenticated (App_onAuth cb app) = true <-> cb <> None)).
Proof.
  destruct st as [v e p q err]. unfold Auth.handleSubmit.
  cbn [Auth.email Auth.password Auth.confirmPassword Auth.isLoginView].
  destruct (Auth.validateEmail e) eqn:V; cbn [negb];
    [|cbn; intuition (try discriminate; try congruence)].
  destruct (length p <? 6) eqn:L;
    [apply Nat.ltb_lt in L; cbn;
     intuition (try discriminate; try congruence; try lia)|].
  apply Nat.ltb_ge in L.
  destruct v; [cbn; intuition (try discriminate; try congruence)|].
  destruct (str_eqb p q) eqn:Q; cbn [negb].
  - apply str_eqb_true in Q. cbn.
    intuition (try discriminate; try congruence).
  - assert (N : p <> q).
    { intros E. apply str_eqb_true in E. rewrite E in Q. discriminate Q. }
    cbn. intuition (try discriminate; try congruence).
Qed.

Lemma lower_at (c : ascii) : lower_char c = "@"%char -> c = "@"%char.
Proof.
  destruct c as [[] [] [] [] [] [] [] []]; vm_compute; intros H;
    first [reflexivity | discriminate H].
Qed.

Lemma lower_not_at (c : ascii) :
  not_at (lower_char c) = true -> not_at c = true.
Proof.
  destruct c as [[] [] [] [] [] [] [] []]; vm_compute; intros H;
    first [reflexivity | discriminate H].
Qed.

Lemma domain_without_at : classes_within not_at Auth.domain_part.
Proof.
  unfold Auth.domain_part, one_to_three, two_or_more, some_of, lit.
  cbn [classes_within].
  repeat split;
    intros c; destruct c as [[] [] [] [] [] [] [] []]; vm_compute; intros H;
    first [reflexivity | discriminate H].
Qed.

(** X19: an address [validateEmail] accepts has a local part that is not
    empty, then an at sign, then a domain of at least four characters that
    holds no further at sign: the domain is what follows the last at sign
    of the address. *)
Theorem accepted_address_shape (address : str) :
  Auth.validateEmail address = true ->
  exists local domain,
    address = local ++ "@"%char :: domain
    /\ local <> [] /\ 4 <= length domain
    /\ forallb not_at domain = true.
Proof.
  unfold Auth.validateEmail. intros H. apply test_lang in H.
  unfold Auth.re in H.
  apply lang_seq_inv in H as (l' & s2 & E & Ll & H).
  apply lang_seq_inv in H as (s3 & d' & -> & La & Ld).
  apply lang_class_inv in La as (c & -> & Hc). apply ascii_eqb_true in Hc.
  subst c.
  apply lang_min_length in Ll as Ml.
  apply lang_min_length in Ld as Md.
  pose proof (lang_classes not_at Auth.domain_part d' domain_without_at Ld) as A.
  change (min_length Auth.local_part) with 1 in Ml.
  change (min_length Auth.domain_part) with 4 in Md.
  unfold toLowerCase in E. apply map_eq_app in E as (l & r & -> & El & Er).
  cbn [app] in Er. apply map_eq_cons in Er as (c & d & -> & Ec & Ed).
  apply lower_at in Ec. subst c.
  exists l, d. split; [reflexivity|]. repeat split.
  - intros ->. subst l'. simpl in Ml. lia.
  - subst d'. rewrite length_map in Md. exact Md.
  - subst d'. apply forallb_forall. intros x Hx.
    apply lower_not_at. rewrite forallb_forall in A. apply A.
    apply in_map. exact Hx.
Qed.

Lemma accepted_address_shape_witness :
  Auth.validateEmail (js "User.Name@Mail.example.ORG") = true /\
  exists local domain,
    js "User.Name@Mail.example.ORG" = local ++ "@"%char :: domain
    /\ local <> [] /\ 4 <= length domain
    /\ forallb not_at domain = true.
Proof.
  split; [reflexivity|].
  exact (accepted_address_shape (js "User.Name@Mail.example.ORG") eq_refl).
Defined.

Lemma lower_host_char (c : ascii) :
  Auth.host_char c = true ->
  Auth.host_char (lower_char c) = true /\ Auth.atom_char (lower_char c) = true.
Proof.
  destruct c as [[] [] [] [] [] [] [] []]; vm_compute; intros H;
    first [split; reflexivity | discriminate H].
Qed.

Lemma lower_letter (c : ascii) :
  is_letter c = true -> is_letter (lower_char c) = true.
Proof.
  destruct c as [[] [] [] [] [] [] [] []]; vm_compute; intros H;
    first [reflexivity | discriminate H].
Qed.

Lemma forallb_lower (f g : ascii -> bool) (s : str) :
  (forall c, f c = true -> g (lower_char c) = true) ->
  forallb f s = true -> forallb g (toLowerCase s) = true.
Proof.
  intros W. induction s as [|c s IH]; intros H; [reflexivity|].
  simpl in H. apply andb_prop in H as [Hc H]. simpl.
  rewrite (W c Hc). apply IH. exact H.
Qed.

(** X20: plain addresses are accepted in any case.  A name and a host made
    of letters, digits and hyphens, both not empty, and a last label of two
    letters or more: name, at sign, host, dot, label passes
    [validateEmail], whether typed in upper or lower case. *)
Theorem plain_address_accepted (name host label : str) :
  name <> [] -> host <> [] -> 2 <= length label ->
  forallb Auth.host_char name = true ->
  forallb Auth.host_char host = true ->
  forallb is_letter label = true ->
  Auth.validateEmail (name ++ js "@" ++ host ++ js "." ++ label) = true.
Proof.
  intros Hn Hh Hl Fn Fh Fl. unfold Auth.validateEmail. apply test_lang.
  unfold toLowerCase. rewrite !map_app. fold (toLowerCase name).
  fold (toLowerCase host). fold (toLowerCase label).
  change (map lower_char (js "@")) with ["@"%char].
  change (map lower_char (js ".")) with ["."%char].
  assert (Ln : toLowerCase name <> [])
    by (destruct name; [contradiction | discriminate]).
  assert (Lh : toLowerCase host <> [])
    by (destruct host; [contradiction | discriminate]).
  assert (An : forallb Auth.atom_char (toLowerCase name) = true)
    by (apply (forallb_lower Auth.host_char); [apply lower_host_char | exact Fn]).
  assert (Ah : forallb Auth.host_char (toLowerCase host) = true)
    by (apply (forallb_lower Auth.host_char); [apply lower_host_char | exact Fh]).
  assert (Al : forallb is_letter (toLowerCase label) = true)
    by (apply (forallb_lower is_letter); [apply lower_letter | exact Fl]).
  assert (Ll : 2 <= length (toLowerCase label))
    by (unfold toLowerCase; rewrite length_map; exact Hl).
  unfold Auth.re. apply lang_seq.
  - unfold Auth.local_part. apply lang_or_l.
    rewrite <- (app_nil_r (toLowerCase name)).
    apply lang_seq; [apply lang_some_of; assumption | constructor].
  - apply (lang_seq (lit "@") Auth.domain_part ["@"%char]);
      [constructor; reflexivity|].
    unfold Auth.domain_part. apply lang_or_r.
    replace (toLowerCase host ++ ["."%char] ++ toLowerCase label)
      with ((toLowerCase host ++ ["."%char]) ++ toLowerCase label)
      by (rewrite <- app_assoc; reflexivity).
    apply lang_seq.
    + unfold some_of at 1.
      rewrite <- (app_nil_r (toLowerCase host ++ ["."%char])).
      apply lang_seq; [|constructor].
      apply lang_seq; [apply lang_some_of; assumption|].
      constructor. reflexivity.
    + destruct (toLowerCase label) as [|a [|b rest]]; simpl in Ll; try lia.
      simpl in Al. apply andb_prop in Al as [Ha Al].
      apply andb_prop in Al as [Hb Al].
      unfold two_or_more.
      apply (lang_seq (Class is_letter) _ [a] (b :: rest));
        [constructor; exact Ha|].
      apply (lang_seq (Class is_letter) _ [b] rest);
        [constructor; exact Hb|].
      apply lang_many_class. exact Al.
Qed.

Lemma plain_address_accepted_witness :
  forallb Auth.host_char (js "Dev-42") = true /\
  forallb Auth.host_char (js "Example") = true /\
  forallb is_letter (js "ORG") = true /\
  Auth.validateEmail (js "Dev-42@Example.ORG") = true.
Proof.
  split; [reflexivity|]. split; [reflexivity|]. split; [reflexivity|].
  exact (plain_address_accepted (js "Dev-42") (js "Example") (js "ORG")
           ltac:(discriminate) ltac:(discriminate) ltac:(simpl; lia)
           eq_refl eq_refl eq_refl).
Defined.

(** ** Edge behaviour *)

Lemma late_fence_text (pre rest : str)
    (originalCode : option str) (language : option Language) :
  pre <> [] ->
  forallb not_backtick pre = true ->
  lazy_to_fence rest = None ->
  MarkdownResponse (pre ++ fence ++ rest) originalCode language
    = [render_prose (pre ++ fence ++ rest)].
Proof.
  intros Hne Hpre Hrest. unfold MarkdownResponse, parts, regex_split.
  rewrite (split_loop_fuel fence_match (S (length (pre ++ fence ++ rest)))
             (length pre + S (length (fence ++ rest))) []
             (pre ++ fence ++ rest))
    by (rewrite length_app; lia).
  rewrite (split_loop_prefix pre [] (fence ++ rest) _ Hpre).
  rewrite split_loop_no_match
    by (intros k; apply no_match_unterminated; exact Hrest).
  destruct pre as [|c pre]; [contradiction|].
  simpl in Hpre. apply andb_prop in Hpre as [Hc _].
  cbn [app filter truthy render_parts].
  unfold isCodeBlock. rewrite (startsWith_fence_cons c _ Hc). reflexivity.
Qed.

(** X21: an opening fence that comes after other text and is never closed
    is not code.  With text without backticks before it and no further
    fence after it, the whole response is one part and is rendered as text,
    fence characters included, whatever the snapshot. *)
Theorem late_unterminated_fence_is_text (pre rest : str)
    (originalCode : option str) (language : option Language) :
  pre <> [] ->
  forallb not_backtick pre = true ->
  lazy_to_fence rest = None ->
  MarkdownResponse (pre ++ fence ++ rest) originalCode language
    = [render_prose (pre ++ fence ++ rest)].
Proof. apply late_fence_text. Qed.

Lemma late_unterminated_fence_is_text_witness :
  forallb not_backtick (js "see:
") = true /\
  lazy_to_fence (js "js
console.log(1)") = None /\
  MarkdownResponse late_unterminated (Some (js "x = 1")) (Some JavaScript)
    = [render_prose late_unterminated].
Proof.
  split; [reflexivity|]. split; [reflexivity|].
  exact (late_unterminated_fence_is_text (js "see:
") (js "js
console.log(1)") (Some (js "x = 1")) (Some JavaScript)
           ltac:(discriminate) eq_refl eq_refl).
Defined.

(** ** An unterminated fence at the end of a response *)

(** After closed blocks the segmentation starts afresh. *)
Lemma closed_blocks_parts (head : str) :
  closed_blocks head ->
  forall post, parts (head ++ post) = parts head ++ parts post.
Proof.
  induction 1 as [|pre inner post0 Hpre Hin Hc IH]; intros post.
  - reflexivity.
  - replace ((pre ++ fence ++ inner ++ fence ++ post0) ++ post)
      with (pre ++ fence ++ inner ++ fence ++ (post0 ++ post))
      by (rewrite <- !app_assoc; reflexivity).
    rewrite !(parts_text_block pre inner _ Hpre Hin), IH.
    rewrite <- app_assoc. reflexivity.
Qed.

Lemma parts_late_fence (pre rest : str) :
  pre <> [] ->
  forallb not_backtick pre = true ->
  lazy_to_fence rest = None ->
  parts (pre ++ fence ++ rest) = [pre ++ fence ++ rest] /\
  isCodeBlock (pre ++ fence ++ rest) = false.
Proof.
  intros Hne Hpre Hrest. unfold parts, regex_split.
  rewrite (split_loop_fuel fence_match (S (length (pre ++ fence ++ rest)))
             (length pre + S (length (fence ++ rest))) []
             (pre ++ fence ++ rest))
    by (rewrite length_app; lia).
  rewrite (split_loop_prefix pre [] (fence ++ rest) _ Hpre).
  rewrite split_loop_no_match
    by (intros k; apply no_match_unterminated; exact Hrest).
  destruct pre as [|c pre]; [contradiction|].
  simpl in Hpre. apply andb_prop in Hpre as [Hc _].
  split; [reflexivity|].
  unfold isCodeBlock. apply (startsWith_fence_cons c _ Hc).
Qed.

(** The last part is rendered with the flag the parts before it leave. *)
Lemma render_parts_snoc (oc : option str) (lang : option Language)
    (b : bool) (ps : list str) (p : str) :
  render_parts oc lang b (ps ++ [p]) =
    render_parts oc lang b ps
      ++ render_parts oc lang (b || negb (code_count ps =? 0)) [p].
Proof.
  revert b; induction ps as [|x ps IH]; intros b.
  - cbn [app render_parts code_count filter length Nat.eqb negb].
    rewrite orb_false_r. reflexivity.
  - change ((x :: ps) ++ [p]) with (x :: (ps ++ [p])).
    unfold code_count. cbn [render_parts filter].
    destruct (isCodeBlock x) eqn:Hx.
    + cbn [length Nat.eqb negb]. rewrite orb_true_r.
      destruct oc as [[|c o]|], lang as [l|], b;
        cbn [app]; rewrite IH; f_equal; f_equal;
        try reflexivity;
        rewrite !render_parts_absent by reflexivity; reflexivity.
    + fold (code_count ps).
      destruct oc as [[|c o]|], lang as [l|], b;
        cbn [app]; rewrite IH; reflexivity.
Qed.

Lemma after_tag_skipn_le (s : str) :
  exists j, j <= S (length (takeWhile is_letter s)) /\ after_tag s = skipn j s.
Proof.
  unfold after_tag. rewrite <- skipn_takeWhile.
  destruct (skipn (length (takeWhile is_letter s)) s) as [|c r] eqn:K.
  - exists (length (takeWhile is_letter s)). split; [lia|]. symmetry. exact K.
  - destruct (ascii_eqb c "010"%char).
    + exists (1 + length (takeWhile is_letter s)). split; [lia|].
      rewrite <- skipn_skipn, K. reflexivity.
    + exists (length (takeWhile is_letter s)). split; [lia|].
      symmetry. exact K.
Qed.

(** C4 (as amended): an opening fence with no fence after it, at the end of
    a response.  Let the region be that fence and the text [rest] after it,
    with no fence in [rest].

    - The region alone is one part and one code segment, with nothing after
      it.
    - After a head of closed fenced blocks (each after text without
      backticks, possibly none; the empty head included) the region is the
      last part and the last segment: a code segment, or, with a snapshot
      and no code part in the head, the one diff.
    - After non-empty text without backticks that follows such a head, the
      region is no part of its own and no code: it belongs to the part that
      begins with that text, which is not a code part and is rendered by
      the text rendering.
    - The tag of the code segment is the run of letters after the fence and
      its body is the text of the region from at most one character after
      the tag to the end of the response, trimmed; where the first line of
      [rest] is letters only (possibly none) and a newline, the tag is that
      run and the body the text after that line, trimmed. *)
Theorem C4_unterminated_fence (rest : str) :
  lazy_to_fence rest = None ->
  let region := fence ++ rest in
  let tag := code_lang region in
  let body := code_body region in
  (parts region = [region] /\
   segments region None None = [Code tag body]) /\
  (forall head, closed_blocks head ->
     parts (head ++ region) = parts head ++ [region] /\
     (forall oc l,
        snapshot_present oc l = false \/ code_count (parts head) <> 0 ->
        segments (head ++ region) oc l
          = segments head oc l ++ [Code tag body]) /\
     (forall c o l,
        code_count (parts head) = 0 ->
        segments (head ++ region) (Some (c :: o)) (Some l)
          = segments head (Some (c :: o)) (Some l) ++ [Diff (c :: o) body])) /\
  (forall head pre oc l,
     closed_blocks head -> pre <> [] -> forallb not_backtick pre = true ->
     parts (head ++ pre ++ region) = parts head ++ [pre ++ region] /\
     isCodeBlock (pre ++ region) = false /\
     MarkdownResponse (head ++ pre ++ region) oc l
       = MarkdownResponse head oc l ++ [render_prose (pre ++ region)]) /\
  (tag = takeWhile is_letter rest /\
   exists j, j <= S (length tag) /\ body = trim (skipn j rest)) /\
  (forall letters text,
     forallb is_letter letters = true ->
     rest = letters ++ "010"%char :: text ->
     tag = letters /\ body = trim text).
Proof.
  intros Hrest region tag body.
  assert (P : parts region = [region]) by (apply parts_unterminated; exact Hrest).
  assert (C : isCodeBlock region = true) by apply isCodeBlock_fence.
  assert (B : body = trim (after_tag rest))
    by (apply code_body_unterminated; exact Hrest).
  assert (T : tag = takeWhile is_letter rest) by apply code_lang_fence.
  assert (S1 : forall head oc l, closed_blocks head ->
             MarkdownResponse (head ++ region) oc l =
               MarkdownResponse head oc l
                 ++ render_parts oc l (negb (code_count (parts head) =? 0))
                      [region]).
  { intros head oc l Hc. unfold MarkdownResponse.
    rewrite (closed_blocks_parts head Hc region), P.
    apply render_parts_snoc. }
  split; [split|split; [|split; [|split; [split|]]]].
  - exact P.
  - unfold segments, MarkdownResponse. rewrite P.
    cbn [render_parts]. rewrite C. reflexivity.
  - intros head H. split; [|split].
    + rewrite (closed_blocks_parts head H region), P. reflexivity.
    + intros oc l [Hs|Hn]; unfold segments;
        rewrite (S1 head oc l H), flat_map_app; f_equal.
      * rewrite render_parts_absent by exact Hs.
        cbn [map]. unfold render_plain. rewrite C. reflexivity.
      * apply Nat.eqb_neq in Hn. rewrite Hn. cbn [negb].
        rewrite render_parts_rendered.
        cbn [map]. unfold render_plain. rewrite C. reflexivity.
    + intros c o l H0. unfold segments.
      rewrite (S1 head _ _ H), flat_map_app, H0.
      cbn [Nat.eqb negb render_parts]. rewrite C. reflexivity.
  - intros head pre oc l H H0 H1.
    destruct (parts_late_fence pre rest H0 H1 Hrest) as [L N].
    fold region in L, N.
    assert (E : parts (head ++ pre ++ region) = parts head ++ [pre ++ region])
      by (rewrite (closed_blocks_parts head H (pre ++ region)), L;
          reflexivity).
    split; [exact E|]. split; [exact N|].
    unfold MarkdownResponse. rewrite E, render_parts_snoc. f_equal.
    generalize (false || negb (code_count (parts head) =? 0)). intros b.
    cbn [render_parts]. rewrite N. reflexivity.
  - exact T.
  - destruct (after_tag_skipn_le rest) as (j & Hj & E).
    exists j. split; [rewrite T; exact Hj|]. rewrite B, E. reflexivity.
  - intros letters text H H0. split.
    + rewrite T, H0, takeWhile_app_stop by reflexivity.
      apply takeWhile_all. exact H.
    + rewrite B, H0. rewrite (after_tag_line letters text H). reflexivity.
Qed.

(** Scenario 6 of the specification, alone and after a closed block. *)
Lemma C4_unterminated_fence_witness :
  lazy_to_fence (js "js
console.log(1)") = None /\
  segments scenario_unterminated None None
    = [Code (js "js") (js "console.log(1)")] /\
  closed_blocks (js "run:
```py
x = 1
```") /\
  segments (js "run:
```py
x = 1
```" ++ scenario_unterminated) None None
    = [Prose (js "run:
"); Code (js "py") (js "x = 1"); Code (js "js") (js "console.log(1)")].
Proof.
  assert (H : closed_blocks (js "run:
```py
x = 1
```")).
  { exact (closed_block (js "run:
") (js "py
x = 1
") [] eq_refl eq_refl closed_nil). }
  split; [reflexivity|]. split; [|split; [exact H|]].
  - exact (proj2 (proj1 (C4_unterminated_fence (js "js
console.log(1)") eq_refl))).
  - exact (proj1 (proj2 (proj1 (proj2 (C4_unterminated_fence (js "js
console.log(1)") eq_refl)) (js "run:
```py
x = 1
```") H)) None None (or_introl eq_refl)).
Defined.
